(** * A shallow embedding of [main.py]: the product fetcher and its report

    The script walks a server-paginated collection: [fetch_product] issues one
    GET per attempt and retries with a doubling delay, and
    [fetch_all_products_parallel] follows the continuation tokens, fetching
    alternately on the main thread and through a thread pool, and
    [analyze_products] summarises the list.

    What lies outside the script is taken as a parameter: the network and the
    clock ([requests.get], [time.sleep]) act on an abstract world [W], and
    [urllib.parse.quote] is a function on strings.  Every function returns,
    besides its result and the new world, the events it caused, oldest first.
    A price is a JSON number, taken by its value, a rational: comparisons
    of Python numbers are exact, while [+] and [/] round when a float is
    involved, so these two are parameters as well ([arithmetic]).  The
    elapsed times the script prints are left out of the printed lines. *)

From Stdlib Require Import ZArith QArith List String Ascii Bool Lia.
From stdpp Require Import gmap strings.
Import ListNotations.

Local Open Scope Z_scope.

(** ** Constants (lines 10-14) *)

Definition BASE_URL : string := "http://145.239.87.46:8000/product".
Definition RETRY_LIMIT : nat := 5.
Definition INITIAL_RETRY_DELAY : Z := 1.
Definition MAX_WORKERS : nat := 5.

(** ** Data *)

(** A page of the API, the dict that [response.json()] returns.  The
    traversal reads two of its keys: [product_id], by subscript, which
    raises [KeyError] when the key is absent ([None] here), and
    [next_product_token], by [get], which gives [None] when it is absent.
    The keys [product_name], [category] and [price] are read by the analysis
    only; dicts without them are excluded by this type. *)
Record product := {
  product_id : option Z;
  product_name : string;
  category : string;
  price : Q;
  next_product_token : option string
}.

(** Truth value of an [Optional[str]]: [None] and the empty string are false. *)
Definition truthy (token : option string) : bool :=
  match token with
  | None => false
  | Some s => negb (String.eqb s "")
  end.

(** [str(token)] as an f-string prints it. *)
Definition str (token : option string) : string :=
  match token with
  | None => "None"
  | Some s => s
  end.

(** The exceptions of the script: the [Exception] of line 47 with its
    message; the error of [response.json()] when the installed [requests]
    raises one that is not a [RequestException]; the [KeyError] of a
    subscript on a dict that lacks the key; and the [ZeroDivisionError] of
    [/] by zero. *)
Inductive exn :=
| Exception (msg : string)
| ValueError
| MissingKey (key : string)
| ZeroDivisionError.

(** What [response.json()] does: it returns the page, or raises; the flag
    says whether the error raised is a [requests.RequestException] (as
    [requests.exceptions.JSONDecodeError] is) or not (a plain [ValueError]). *)
Inductive body :=
| Json (p : product)
| JSONDecodeError (is_request_exception : bool).

(** What [requests.get(url)] does: it raises a [RequestException] (a network
    fault), or returns a response with a status code and a body. *)
Inductive get_outcome :=
| RequestException
| Response (status_code : Z) (json : body).

(** Lines the script prints (without the elapsed time). *)
Inductive line :=
| Added (id : Z) (total : nat)
| AllFetched
| ErrorFuture (e : exn)
| ErrorOccurred (e : exn).

(** Observable events, in the order in which they happen. *)
Inductive event :=
| Get (url : string)
| Sleep (delay : Z)
| Print (l : line)
| Submit (token : option string)
| Done (token : option string).

(** The libraries the script calls. *)
Record runtime (W : Type) := {
  requests_get : W -> string -> get_outcome * W;
  time_sleep : W -> Z -> W;
  quote : string -> string
}.
Arguments requests_get {W}.
Arguments time_sleep {W}.
Arguments quote {W}.

(** [response.raise_for_status()] raises [HTTPError], a [RequestException],
    exactly for the statuses 400 to 599. *)
Definition raises_for_status (status_code : Z) : bool :=
  (400 <=? status_code) && (status_code <? 600).

(** [l.append(x)] on a Python list. *)
Definition list_append {A : Type} (l : list A) (x : A) : list A := l ++ [x].

(** Puts events in front of those of the computation that follows. *)
Definition after {A B : Type} (evs : list event) (r : A * B * list event)
  : A * B * list event :=
  let '(a, b, evs') := r in (a, b, evs ++ evs').

Section Fetch.
Context {W : Type} (rt : runtime W).

  (** ** [fetch_product] (lines 17-47) *)

  (** Lines 29-31. *)
Definition request_url (token : option string) : string :=
    match token with
    | Some s =>
        if truthy token
        then BASE_URL +:+ "?next_product_token=" +:+ quote rt s
        else BASE_URL
    | None => BASE_URL
    end.

  (** How the [for] loop of lines 34-45 can end. *)
Inductive attempts_result :=
  | Returned (p : product)
  | Raised (e : exn)
  | Exhausted.

  (** The loop [for attempt in range(n)] with the current [retry_delay]. *)
Fixpoint attempts (n : nat) (url : string) (retry_delay : Z) (w : W)
    : attempts_result * W * list event :=
    match n with
    | O => (Exhausted, w, [])
    | S n' =>
        let '(o, w1) := requests_get rt w url in
        (* time.sleep(retry_delay); retry_delay *= 2, then the next attempt *)
        let backoff :=
          after [Get url; Sleep retry_delay]
            (attempts n' url (retry_delay * 2) (time_sleep rt w1 retry_delay)) in
        match o with
        | RequestException => backoff
        | Response status_code json =>
            if status_code =? 503 then backoff
            else if raises_for_status status_code then backoff
            else match json with
                 | Json p => (Returned p, w1, [Get url])
                 | JSONDecodeError true => backoff
                 | JSONDecodeError false => (Raised ValueError, w1, [Get url])
                 end
        end
    end.

  (** The message of line 47. *)
Definition failure_message (token : option string) : string :=
    "Failed to fetch product data for token: " +:+ str token
      +:+ " after several retries".

  (** What the function does once the loop has ended: the [return] of line
      42, an exception on its way out, or the [raise] of line 47. *)
Definition conclude (token : option string) (r : attempts_result)
    : product + exn :=
    match r with
    | Returned p => inl p
    | Raised e => inr e
    | Exhausted => inr (Exception (failure_message token))
    end.

Definition fetch_product (token : option string) (w : W)
    : (product + exn) * W * list event :=
    let '(r, w', evs) :=
      attempts RETRY_LIMIT (request_url token) INITIAL_RETRY_DELAY w in
    (conclude token r, w', evs).

  (** ** [fetch_all_products_parallel] (lines 50-106) *)

  (** The variables of the loop: the list [products], [next_product_token]
      and the world. *)
Record state := {
    products : list product;
    token : option string;
    world : W
  }.

  (** The two [break]s that leave the [while] loop: line 76, after a fetch
      on the main thread, and line 100, after a fetch through the executor. *)
Inductive exit_branch := DirectExit | FutureExit.

Inductive control :=
  | Continue
  | Break (b : exit_branch).

  (** [for future in as_completed(future_to_token)] (lines 84-97).  A future
      is named by the token it was submitted for.  The worker runs the task
      while the main thread waits, so the task's events follow the [Submit]
      and end with [Done]; futures complete in the order of submission, the
      only order there is for the one future the script submits.  After the
      [break] of line 95 the futures left are completed when the executor
      shuts down, their results unread. *)
Fixpoint drain (futures : list (option string)) (w : W) : W * list event :=
    match futures with
    | [] => (w, [])
    | t :: rest =>
        let '(_, w1, evs) := fetch_product t w in
        let '(w2, evs') := drain rest w1 in
        (w2, evs ++ [Done t] ++ evs')
    end.

Fixpoint as_completed (futures : list (option string)) (s : state)
    : state * list event :=
    match futures with
    | [] => (s, [])
    | t :: rest =>
        let '(r, w1, evs) := fetch_product t (world s) in
        match r with
        | inl result =>
            let products1 := list_append (products s) result in
            match product_id result with
            | None =>
                (* result['product_id'] in the f-string of line 90 raises
                   KeyError: nothing is printed, [next_product_token] is
                   not assigned, and the except clause of line 96 catches *)
                let '(s', evs') :=
                  as_completed rest
                    {| products := products1; token := token s;
                       world := w1 |} in
                (s',
                 evs ++ [Done t; Print (ErrorFuture (MissingKey "product_id"))]
                   ++ evs')
            | Some id =>
                let added := Print (Added id (length products1)) in
                let token1 := next_product_token result in
                if negb (truthy token1) then
                  let '(w2, evs') := drain rest w1 in
                  ({| products := products1; token := token1; world := w2 |},
                   evs ++ [Done t; added; Print AllFetched] ++ evs')
                else
                  let '(s', evs') :=
                    as_completed rest
                      {| products := products1; token := token1;
                         world := w1 |} in
                  (s', evs ++ [Done t; added] ++ evs')
            end
        | inr e =>
            let '(s', evs') :=
              as_completed rest
                {| products := products s; token := token s; world := w1 |} in
            (s', evs ++ [Done t; Print (ErrorFuture e)] ++ evs')
        end
    end.

  (** One turn of [while True] (lines 62-104). *)
Definition iteration (s : state) : control * state * list event :=
    let '(r, w1, evs) := fetch_product (token s) (world s) in
    match r with
    | inr e =>
        (* except Exception of line 102 *)
        (Continue,
         {| products := products s; token := token s; world := w1 |},
         evs ++ [Print (ErrorOccurred e)])
    | inl product_data =>
        let products1 := list_append (products s) product_data in
        match product_id product_data with
        | None =>
            (* product_data['product_id'] in the f-string of line 69 raises
               KeyError after the append of line 65: nothing is printed,
               [next_product_token] keeps its value, and the except clause
               of line 102 catches *)
            (Continue,
             {| products := products1; token := token s; world := w1 |},
             evs ++ [Print (ErrorOccurred (MissingKey "product_id"))])
        | Some id =>
            let added := Print (Added id (length products1)) in
            let token1 := next_product_token product_data in
            if negb (truthy token1) then
              (Break DirectExit,
               {| products := products1; token := token1; world := w1 |},
               evs ++ [added; Print AllFetched])
            else
              let future_to_token := [token1] in
              let '(s', evs') :=
                as_completed future_to_token
                  {| products := products1; token := token1; world := w1 |} in
              (if negb (truthy (token s')) then Break FutureExit else Continue,
               s',
               evs ++ [added] ++ map Submit future_to_token ++ evs')
        end
    end.

  (** [while True], at most [fuel] turns: [None] when the loop has not left
      by then. *)
Fixpoint loop (fuel : nat) (s : state)
    : option exit_branch * state * list event :=
    match fuel with
    | O => (None, s, [])
    | S fuel' =>
        let '(c, s', evs) := iteration s in
        match c with
        | Break b => (Some b, s', evs)
        | Continue => after evs (loop fuel' s')
        end
    end.

Definition initial (w : W) : state :=
    {| products := []; token := None; world := w |}.

  (** The list the function returns, if the loop leaves within [fuel] turns. *)
Definition fetch_all_products_parallel (fuel : nat) (w : W)
    : option (list product) :=
    let '(c, s, _) := loop fuel (initial w) in
    match c with
    | Some _ => Some (products s)
    | None => None
    end.

  (** ** The sequential traversal

      The traversal as a plain loop over the token chain, one fetch per turn
      and nothing submitted: what the parallel one is compared with. *)
Definition sequential_iteration (s : state) : control * state * list event :=
    let '(r, w1, evs) := fetch_product (token s) (world s) in
    match r with
    | inr e =>
        (Continue,
         {| products := products s; token := token s; world := w1 |},
         evs ++ [Print (ErrorOccurred e)])
    | inl product_data =>
        let products1 := list_append (products s) product_data in
        match product_id product_data with
        | None =>
            (Continue,
             {| products := products1; token := token s; world := w1 |},
             evs ++ [Print (ErrorOccurred (MissingKey "product_id"))])
        | Some id =>
            let added := Print (Added id (length products1)) in
            let token1 := next_product_token product_data in
            if negb (truthy token1) then
              (Break DirectExit,
               {| products := products1; token := token1; world := w1 |},
               evs ++ [added; Print AllFetched])
            else
              (Continue,
               {| products := products1; token := token1; world := w1 |},
               evs ++ [added])
        end
    end.

Fixpoint sequential_loop (fuel : nat) (s : state)
    : option exit_branch * state * list event :=
    match fuel with
    | O => (None, s, [])
    | S fuel' =>
        let '(c, s', evs) := sequential_iteration s in
        match c with
        | Break b => (Some b, s', evs)
        | Continue => after evs (sequential_loop fuel' s')
        end
    end.

End Fetch.

Arguments state : clear implicits.
Arguments products {W}.
Arguments token {W}.
Arguments world {W}.

(** ** [analyze_products] (lines 109-145) *)

(** [x > y] on prices. *)
Definition Qgtb (x y : Q) : bool := negb (Qle_bool x y).

(** The dict [most_expensive_fashion]: the initial [{'price': -1}], or the
    three keys copied from a product. *)
Inductive fashion_dict :=
| PriceOnly (p : Q)
| Full (id : Z) (name : string) (p : Q).

Definition fashion_price (d : fashion_dict) : Q :=
  match d with
  | PriceOnly p => p
  | Full _ _ p => p
  end.

(** The variables the [for] loop of line 128 updates. *)
Record tally := {
  category_counts : gmap string nat;
  most_expensive_fashion : fashion_dict;
  toys_games_total_price : Q;
  toys_games_count : nat
}.

Definition initial_tally : tally :=
  {| category_counts := ∅;
     most_expensive_fashion := PriceOnly (-1 # 1);
     toys_games_total_price := 0;
     toys_games_count := 0 |}.

(** Python's [+] and [/] on the numbers of the script: exact on integers,
    rounded when a float is involved.  [py_truediv a n] is [a / n] for a
    count [n] that is not zero. *)
Record arithmetic := {
  py_add : Q -> Q -> Q;
  py_truediv : Q -> nat -> Q
}.

(** [a / n]: division by zero raises. *)
Definition true_divide (ar : arithmetic) (a : Q) (n : nat) : Q + exn :=
  if Nat.eqb n 0 then inr ZeroDivisionError else inl (py_truediv ar a n).

(** The body of the loop (lines 129-141); [category_counts] is a
    [defaultdict(int)], a missing category counts as 0.  The subscript
    [product['product_id']] of line 134 is evaluated only when the product
    is selected, and raises [KeyError] when the key is absent. *)
Definition analyze_step (ar : arithmetic) (t : tally) (p : product)
  : tally + exn :=
  let c := category p in
  let counts :=
    <[c := S (default 0%nat (category_counts t !! c))]> (category_counts t) in
  let selected :=
    if String.eqb c "Fashion"
       && Qgtb (price p) (fashion_price (most_expensive_fashion t))
    then match product_id p with
         | Some id => inl (Full id (product_name p) (price p))
         | None => inr (MissingKey "product_id")
         end
    else inl (most_expensive_fashion t) in
  match selected with
  | inr e => inr e
  | inl fashion =>
      inl {| category_counts := counts;
             most_expensive_fashion := fashion;
             toys_games_total_price :=
               if String.eqb c "Toys & Games"
               then py_add ar (toys_games_total_price t) (price p)
               else toys_games_total_price t;
             toys_games_count :=
               if String.eqb c "Toys & Games"
               then S (toys_games_count t)
               else toys_games_count t |}
  end.

(** [for product in products] (line 128), from the tally [t]. *)
Fixpoint analyze_loop (ar : arithmetic) (products : list product) (t : tally)
  : tally + exn :=
  match products with
  | [] => inl t
  | p :: rest =>
      match analyze_step ar t p with
      | inl t' => analyze_loop ar rest t'
      | inr e => inr e
      end
  end.

Definition analyze_products (ar : arithmetic) (products : list product)
  : (nat * gmap string nat * fashion_dict * Q) + exn :=
  let total_products := length products in
  match analyze_loop ar products initial_tally with
  | inr e => inr e
  | inl t =>
      let average_price_toys_games :=
        if Nat.eqb (toys_games_count t) 0 then inl 0%Q
        else true_divide ar (toys_games_total_price t) (toys_games_count t) in
      match average_price_toys_games with
      | inr e => inr e
      | inl average =>
          inl (total_products, category_counts t, most_expensive_fashion t,
               average)
      end
  end.

(** Line 3 of the report (lines 177-181 of [main]). *)
Inductive fashion_report :=
| MostExpensive (id : Z) (name : string) (p : Q)
| NoProductsFound
| KeyError.

Definition report_fashion (d : fashion_dict) : fashion_report :=
  if Qle_bool 0 (fashion_price d) then
    match d with
    | Full id name p => MostExpensive id name p
    | PriceOnly _ => KeyError
    end
  else NoProductsFound.

(** ** Concrete runtimes, for running the functions *)

(** [urllib.parse.quote] with its default [safe='/'], as Python 3.7 and later
    have it, on the UTF-8 bytes of the token: letters, digits and [_.-~/]
    stay, every other byte becomes [%XX]. *)
Definition always_safe (c : ascii) : bool :=
  let n := nat_of_ascii c in
  ((65 <=? n) && (n <=? 90) || (97 <=? n) && (n <=? 122)
   || (48 <=? n) && (n <=? 57)
   || (n =? 95) || (n =? 46) || (n =? 45) || (n =? 126) || (n =? 47))%nat.

Definition hex_digit (n : nat) : ascii :=
  nth n (list_ascii_of_string "0123456789ABCDEF") "0"%char.

Fixpoint percent_quote (s : string) : string :=
  match s with
  | EmptyString => EmptyString
  | String c rest =>
      if always_safe c then String c (percent_quote rest)
      else
        let n := nat_of_ascii c in
        String "%" (String (hex_digit (n / 16))
                      (String (hex_digit (n mod 16)) (percent_quote rest)))
  end.

(** A server without state: each URL has its answer, any other URL gets
    [otherwise]; sleeping changes nothing. *)
Definition table_get (table : list (string * get_outcome))
  (otherwise : get_outcome) (w : unit) (url : string) : get_outcome * unit :=
  (match find (fun e => String.eqb (fst e) url) table with
   | Some e => snd e
   | None => otherwise
   end, w).

Definition table_server (table : list (string * get_outcome))
  (otherwise : get_outcome) : runtime unit :=
  {| requests_get := table_get table otherwise;
     time_sleep := fun w _ => w;
     quote := percent_quote |}.

(** A server that plays a script: the world is the list of answers still to
    come, whatever the URL; past the script every request is a network
    fault. *)
Definition script_get (w : list get_outcome) (url : string)
  : get_outcome * list get_outcome :=
  match w with
  | [] => (RequestException, [])
  | o :: rest => (o, rest)
  end.

Definition script_server : runtime (list get_outcome) :=
  {| requests_get := script_get;
     time_sleep := fun w _ => w;
     quote := percent_quote |}.

(** Arithmetic without rounding, as Python has it on integers and as an
    idealisation elsewhere. *)
Definition exact_arithmetic : arithmetic :=
  {| py_add := Qplus;
     py_truediv := fun a n => (a / inject_Z (Z.of_nat n))%Q |}.

Definition page (id : Z) (next : option string) : product :=
  {| product_id := Some id; product_name := "item"; category := "Fashion";
     price := 10; next_product_token := next |}.

(** Three servers used below.  [token_url t] is the URL of the page behind
    the token [t]. *)
Definition token_url (t : string) : string :=
  BASE_URL +:+ "?next_product_token=" +:+ percent_quote t.

(** Every request is answered 503. *)
Definition busy_server : runtime unit :=
  table_server [] (Response 503 (JSONDecodeError true)).

(** The first page reveals the token B, and the page of B (page 2) is
    answered 400, each time it is asked for. *)
Definition page2_400_server : runtime unit :=
  table_server [(BASE_URL, Response 200 (Json (page 1 (Some "B"))))]
    (Response 400 (JSONDecodeError true)).

(** A chain of three pages, none -> B -> C. *)
Definition three_pages : list product :=
  [page 1 (Some "B"); page 2 (Some "C"); page 3 None].

Definition three_page_server : runtime unit :=
  table_server
    [(BASE_URL, Response 200 (Json (page 1 (Some "B"))));
     (token_url "B", Response 200 (Json (page 2 (Some "C"))));
     (token_url "C", Response 200 (Json (page 3 None)))]
    (Response 404 (JSONDecodeError true)).

(** Two pages that carry the same identifier, 7. *)
Definition same_id_server : runtime unit :=
  table_server
    [(BASE_URL, Response 200 (Json (page 7 (Some "B"))));
     (token_url "B", Response 200 (Json (page 7 None)))]
    (Response 404 (JSONDecodeError true)).

(** The state of the loop on [page2_400_server] once page 1 is in the list
    and the token B is the current one. *)
Definition stuck_at_B : state unit :=
  {| products := [page 1 (Some "B")]; token := Some "B"; world := tt |}.

(** ** Vocabulary of the properties *)

(** The failures the specification calls retryable: a network fault or the
    status 503. *)
Definition retryable (o : get_outcome) : bool :=
  match o with
  | RequestException => true
  | Response status_code _ => status_code =? 503
  end.

(** The answers after which [fetch_product] sleeps and tries again. *)
Definition caught (o : get_outcome) : bool :=
  match o with
  | RequestException => true
  | Response status_code json =>
      (status_code =? 503) || raises_for_status status_code
      || match json with
         | JSONDecodeError true => true
         | _ => false
         end
  end.

(** The delays [d, 2d, 4d, ...], [n] of them. *)
Definition doubling_delays (d : Z) (n : nat) : list Z :=
  map (fun i => d * 2 ^ Z.of_nat i) (seq 0 n).

(** [n] attempts on [url], each followed by its sleep. *)
Definition backoff_trace (url : string) (d : Z) (n : nat) : list event :=
  flat_map (fun delay => [Get url; Sleep delay]) (doubling_delays d n).

(** A run in which no fetch fails: from the world [w], the fetch for
    [tok] returns the first page, the fetch for the token of that page
    returns the second, and so on through [pages]. *)
Fixpoint serves {W : Type} (rt : runtime W) (w : W) (tok : option string)
  (pages : list product) : Prop :=
  match pages with
  | [] => True
  | p :: rest =>
      exists w' evs,
        fetch_product rt tok w = (inl p, w', evs)
        /\ serves rt w' (next_product_token p) rest
  end.

(** A finite token chain: every page but the last carries a token, the
    last carries none (absent or empty). *)
Fixpoint is_chain (pages : list product) : bool :=
  match pages with
  | [] => false
  | [last] => negb (truthy (next_product_token last))
  | p :: rest => truthy (next_product_token p) && is_chain rest
  end.

(** The number of pages a run reports as added. *)
Definition is_added (e : event) : bool :=
  match e with
  | Print (Added _ _) => true
  | _ => false
  end.

Definition absorbed (evs : list event) : nat :=
  length (List.filter is_added evs).

(** The exit a chain of [n] pages takes: odd chains end on the main
    thread's fetch, even ones on the executor's. *)
Definition exit_of (n : nat) : exit_branch :=
  if Nat.odd n then DirectExit else FutureExit.

(** The parts of the tuple [analyze_products] returns that the properties
    are about. *)
Definition fashion_of (r : nat * gmap string nat * fashion_dict * Q)
  : fashion_dict := snd (fst r).

Definition average_of (r : nat * gmap string nat * fashion_dict * Q) : Q :=
  snd r.

(** What the variable [most_expensive_fashion] can hold: the sentinel, or
    the keys of a Fashion product dearer than -1. *)
Definition selection (seen : product -> Prop) (d : fashion_dict) : Prop :=
  d = PriceOnly (-1 # 1)
  \/ exists q id, seen q /\ category q = "Fashion" /\ (-1 # 1 < price q)%Q
                  /\ product_id q = Some id
                  /\ d = Full id (product_name q) (price q).

(** [d] is the record of the first Fashion product of [ps] whose price is
    the highest among the Fashion products of [ps], and that price is above
    [floor]: the Fashion products before it are strictly cheaper, those
    after it are not dearer. *)
Definition first_maximum (ps : list product) (floor : Q) (d : fashion_dict)
  : Prop :=
  exists before q after id,
    ps = before ++ q :: after
    /\ category q = "Fashion"
    /\ product_id q = Some id
    /\ d = Full id (product_name q) (price q)
    /\ (floor < price q)%Q
    /\ (forall b, In b before -> category b = "Fashion" ->
          (price b < price q)%Q)
    /\ (forall a, In a after -> category a = "Fashion" ->
          (price a <= price q)%Q).

(** Every page of the list carries the key [product_id]. *)
Definition identified (ps : list product) : Prop :=
  Forall (fun p => product_id p <> None) ps.

(** The number of entries of a list that carry the identifier [id]. *)
Definition occurrences (id : Z) (ps : list product) : nat :=
  length (List.filter (fun p => match product_id p with
                                | Some i => Z.eqb i id
                                | None => false
                                end) ps).

(** The number of entries of a list that carry an identifier at all. *)
Definition with_id (ps : list product) : nat :=
  length (List.filter (fun p => match product_id p with
                                | Some _ => true
                                | None => false
                                end) ps).

(** An answer with an error status, 400 to 599. *)
Definition error_status (o : get_outcome) : bool :=
  match o with
  | RequestException => false
  | Response status_code _ => raises_for_status status_code
  end.


(** What an observer of the network and of the printed lines sees of a
    run: the submissions to the executor and the completions of its futures
    are internal, and an error is an error wherever it was caught. *)
Definition erase_event (e : event) : list event :=
  match e with
  | Submit _ | Done _ => []
  | Print (ErrorFuture x) => [Print (ErrorOccurred x)]
  | _ => [e]
  end.

Definition erase (evs : list event) : list event := flat_map erase_event evs.

(** Futures submitted and not yet completed: [n] of them before the event,
    how many after it. *)
Definition in_flight_after (n : nat) (e : event) : nat :=
  match e with
  | Submit _ => S n
  | Done _ => pred n
  | _ => n
  end.

Definition in_flight (n : nat) (evs : list event) : nat :=
  fold_left in_flight_after evs n.

(** The largest number of futures in flight at any moment of a trace that
    starts with [n] of them. *)
Fixpoint peak_in_flight (n : nat) (evs : list event) : nat :=
  match evs with
  | [] => n
  | e :: rest => Nat.max n (peak_in_flight (in_flight_after n e) rest)
  end.

Definition is_submit (e : event) : bool :=
  match e with
  | Submit _ => true
  | _ => false
  end.

Definition submitted (evs : list event) : nat :=
  length (List.filter is_submit evs).

(** A trace without submissions and completions. *)
Definition quiet (evs : list event) : Prop :=
  Forall (fun e => match e with
                   | Submit _ | Done _ => False
                   | _ => True
                   end) evs.

(** Two products for the report: a Fashion record of price -2 and a gadget. *)
Definition cheap_fashion : product :=
  {| product_id := Some 5; product_name := "scarf"; category := "Fashion";
     price := -2 # 1; next_product_token := None |}.

Definition gadget : product :=
  {| product_id := Some 6; product_name := "torch"; category := "Electronics";
     price := 30; next_product_token := None |}.

(** ** Vocabulary of the further properties *)

Definition is_get (e : event) : bool :=
  match e with
  | Get _ => true
  | _ => false
  end.

(** The world answers the requests for [url] with the outcomes [fails], one
    per attempt, the script sleeping [d], [2d], ... in between, and then with
    [final], which leaves the world [w_end]. *)
Fixpoint answers {W : Type} (rt : runtime W) (w : W) (url : string) (d : Z)
  (fails : list get_outcome) (final : get_outcome) (w_end : W) : Prop :=
  match fails with
  | [] => requests_get rt w url = (final, w_end)
  | o :: rest =>
      exists w1,
        requests_get rt w url = (o, w1)
        /\ answers rt (time_sleep rt w1 d) url (d * 2) rest final w_end
  end.

(** The fetch for [tok] raises when started in the world [w]. *)
Definition fetch_fails {W : Type} (rt : runtime W) (tok : option string)
  (w : W) : bool :=
  match fst (fst (fetch_product rt tok w)) with
  | inr _ => true
  | inl _ => false
  end.

(** The current token is the one the last collected page carries ([None]
    before the first page), and every collected page carries one. *)
Definition tracks {W : Type} (s : state W) : Prop :=
  Forall (fun p => truthy (next_product_token p) = true) (products s)
  /\ token s = List.last (map next_product_token (products s)) None.

(** The number of products of a category, the toys of a list and the sum
    of prices as the loop of line 128 accumulates it. *)
Definition count_category (c : string) (ps : list product) : nat :=
  length (List.filter (fun p => String.eqb (category p) c) ps).

Definition toys_games (ps : list product) : list product :=
  List.filter (fun p => String.eqb (category p) "Toys & Games") ps.

Definition total_price (ar : arithmetic) (ps : list product) : Q :=
  fold_left (fun acc p => py_add ar acc (price p)) ps 0%Q.

Definition counts_of (r : nat * gmap string nat * fashion_dict * Q)
  : gmap string nat := snd (fst (fst r)).

(** An event the traversal may cause when its current token is [tok]
    and the pages in [ps] have been collected: a request goes to the URL of
    [tok] or to the URL of the token some page of [ps] carries. *)
Definition allowed {W : Type} (rt : runtime W) (tok : option string)
  (ps : list product) (e : event) : Prop :=
  match e with
  | Get u =>
      u = request_url rt tok
      \/ exists p, In p ps /\ u = request_url rt (next_product_token p)
  | _ => True
  end.

(** The seconds a trace spends asleep. *)
Definition total_sleep (evs : list event) : Z :=
  fold_right (fun e acc => match e with Sleep d => d + acc | _ => acc end)
    0 evs.

(** A 'Toys & Games' product of a given price. *)
Definition toy (id : Z) (pr : Q) : product :=
  {| product_id := Some id; product_name := "toy";
     category := "Toys & Games";
     price := pr; next_product_token := None |}.

(** A Fashion product of price -1/2. *)
Definition half_off : product :=
  {| product_id := Some 9; product_name := "sock"; category := "Fashion";
     price := -1 # 2; next_product_token := None |}.

(** The sum of the counts of a [category_counts] dict, and the first
    component of the tuple [analyze_products] returns. *)
Definition sum_counts (m : gmap string nat) : nat :=
  map_fold (fun _ n acc => (n + acc)%nat) 0%nat m.

Definition total_of (r : nat * gmap string nat * fashion_dict * Q) : nat :=
  fst (fst (fst r)).

(** The 'Added product ID ... - Total products: ...' lines of a trace,
    as pairs of identifier and total, and the lines a list of pages should
    give when [start] products were collected before them: a page without
    [product_id] has its place in the count and no line. *)
Definition added_lines (evs : list event) : list (Z * nat) :=
  flat_map (fun e => match e with
                     | Print (Added id total) => [(id, total)]
                     | _ => []
                     end) evs.

Fixpoint numbered (start : nat) (ps : list product) : list (Z * nat) :=
  match ps with
  | [] => []
  | p :: rest =>
      match product_id p with
      | Some id => [(id, S start)]
      | None => []
      end ++ numbered (S start) rest
  end.

(** A page without the key [product_id], and a server whose first page it
    is, once, before the page with the key is served. *)
Definition unidentified (next : option string) : product :=
  {| product_id := None; product_name := "item"; category := "Fashion";
     price := 10; next_product_token := next |}.

Definition unidentified_then_page : list get_outcome :=
  [Response 200 (Json (unidentified (Some "B")));
   Response 200 (Json (page 1 None))].

(** A server that answers 503 once for the page of B. *)
Definition busy_once_script : list get_outcome :=
  [Response 503 (JSONDecodeError true);
   Response 200 (Json (page 2 (Some "C")))].

(** * Properties *)

Example percent_quote_ex : percent_quote "a b/c~d?" = "a%20b/c~d%3F".
Proof. reflexivity. Qed.

Example request_url_ex :
  request_url script_server (Some "a b")
  = "http://145.239.87.46:8000/product?next_product_token=a%20b".
Proof. reflexivity. Qed.

Example fetch_after_400 :
  fetch_product script_server None
    [Response 400 (JSONDecodeError true); Response 200 (Json (page 1 None))]
  = (inl (page 1 None), [],
     [Get BASE_URL; Sleep 1; Get BASE_URL]).
Proof. reflexivity. Qed.

(** ** [fetch_product] *)

Lemma doubling_delays_S d n :
  doubling_delays d (S n) = d :: doubling_delays (d * 2) n.
Proof.
  unfold doubling_delays. cbn [seq map]. f_equal.
  - cbn. lia.
  - rewrite <- seq_shift, map_map. apply map_ext. intros i.
    rewrite Nat2Z.inj_succ, Z.pow_succ_r by lia. lia.
Qed.

Lemma backoff_trace_S url d n :
  backoff_trace url d (S n)
  = Get url :: Sleep d :: backoff_trace url (d * 2) n.
Proof. unfold backoff_trace. rewrite doubling_delays_S. reflexivity. Qed.

Section FetchFacts.
Context {W : Type} (rt : runtime W).

  (** One attempt whose answer is caught: the sleep, the doubled delay and
      the attempts that are left. *)
Lemma attempts_backoff n url d w o w1 :
    requests_get rt w url = (o, w1) ->
    caught o = true ->
    attempts rt (S n) url d w
    = after [Get url; Sleep d]
        (attempts rt n url (d * 2) (time_sleep rt w1 d)).
  Proof.
    intros Hget Hc. cbn [attempts]. rewrite Hget.
    destruct o as [|st json]; [reflexivity|].
    cbn in Hc. destruct (st =? 503); [reflexivity|].
    destruct (raises_for_status st); [reflexivity|].
    destruct json as [p|[|]]; cbn in Hc; try discriminate. reflexivity.
  Qed.

  (** When every answer for [url] is caught, the loop uses all its attempts. *)
Lemma attempts_all_caught url :
    (forall w, caught (fst (requests_get rt w url)) = true) ->
    forall n d w,
      fst (fst (attempts rt n url d w)) = Exhausted
      /\ snd (attempts rt n url d w) = backoff_trace url d n.
  Proof.
    intros Hall. induction n as [|n IH]; intros d w.
    - split; reflexivity.
    - destruct (requests_get rt w url) as [o w1] eqn:Hget.
      pose proof (Hall w) as Hc. rewrite Hget in Hc. cbn in Hc.
      rewrite (attempts_backoff n url d w o w1 Hget Hc), backoff_trace_S.
      destruct (IH (d * 2) (time_sleep rt w1 d)) as [IH1 IH2].
      destruct (attempts rt n url (d * 2) (time_sleep rt w1 d)) as [[r w2] evs].
      cbn in *. subst. split; reflexivity.
  Qed.

  (** The loop only requests [url] and sleeps. *)
Lemma attempts_events n : forall url d w,
    Forall (fun e => e = Get url \/ exists delay, e = Sleep delay)
      (snd (attempts rt n url d w)).
  Proof.
    induction n as [|n IH]; intros url d w; [constructor|].
    cbn [attempts]. destruct (requests_get rt w url) as [o w1].
    assert (Hb : Forall (fun e => e = Get url \/ exists delay, e = Sleep delay)
                   (snd (after [Get url; Sleep d]
                           (attempts rt n url (d * 2) (time_sleep rt w1 d))))).
    { specialize (IH url (d * 2) (time_sleep rt w1 d)).
      destruct (attempts rt n url (d * 2) (time_sleep rt w1 d)) as [[r w2] evs].
      cbn in *. constructor; [now left|]. constructor; [right; eauto|].
      exact IH. }
    destruct o as [|st json]; [exact Hb|].
    destruct (st =? 503); [exact Hb|].
    destruct (raises_for_status st); [exact Hb|].
    destruct json as [p|[|]]; [|exact Hb|]; cbn;
      (constructor; [now left|constructor]).
  Qed.

Lemma fetch_product_events tok w :
    Forall (fun e => e = Get (request_url rt tok) \/ exists delay, e = Sleep delay)
      (snd (fetch_product rt tok w)).
  Proof.
    unfold fetch_product.
    pose proof (attempts_events RETRY_LIMIT (request_url rt tok)
                  INITIAL_RETRY_DELAY w) as H.
    destruct (attempts rt RETRY_LIMIT _ _ w) as [[r w'] evs]. exact H.
  Qed.

End FetchFacts.

(** C7. For every call of [fetch_product]: with no token ([None]) or the
    empty token the request URL is exactly the base URL, with no query
    parameter; with a non-empty token it is the base URL followed by
    [?next_product_token=] and the token as [quote] encodes it; and every
    request the call sends goes to that URL. *)
Theorem request_url_spec {W : Type} (rt : runtime W) :
  request_url rt None = BASE_URL
  /\ request_url rt (Some "") = BASE_URL
  /\ (forall c s,
        request_url rt (Some (String c s))
        = BASE_URL +:+ "?next_product_token=" +:+ quote rt (String c s))
  /\ (forall tok w,
        Forall (fun e => match e with
                         | Get url => url = request_url rt tok
                         | _ => True
                         end)
          (snd (fetch_product rt tok w))).
Proof.
  repeat split; try reflexivity.
  intros tok w. eapply List.Forall_impl; [|apply fetch_product_events].
  intros e [->|[d ->]]; [reflexivity|exact I].
Qed.

(** C4. When every attempt for a token meets a retryable failure (a network
    fault or the status 503), [fetch_product] makes exactly [RETRY_LIMIT]
    = 5 requests, sleeps after each of them with the delays d, 2d, 4d, ...
    from [INITIAL_RETRY_DELAY] (1, 2, 4, 8, 16: the delays between
    consecutive attempts double, and one more sleep follows the last
    attempt), and then raises the exception whose message names the token. *)
Theorem retry_budget {W : Type} (rt : runtime W) (tok : option string) (w : W) :
  (forall w', retryable (fst (requests_get rt w' (request_url rt tok))) = true) ->
  fst (fst (fetch_product rt tok w)) = inr (Exception (failure_message tok))
  /\ snd (fetch_product rt tok w)
     = backoff_trace (request_url rt tok) INITIAL_RETRY_DELAY RETRY_LIMIT
  /\ doubling_delays INITIAL_RETRY_DELAY RETRY_LIMIT = [1; 2; 4; 8; 16]
  /\ length (List.filter (fun e => match e with Get _ => true | _ => false end)
               (snd (fetch_product rt tok w))) = RETRY_LIMIT
  /\ failure_message tok
     = "Failed to fetch product data for token: " +:+ str tok
         +:+ " after several retries".
Proof.
  intros Hall.
  assert (Hc : forall w', caught (fst (requests_get rt w' (request_url rt tok))) = true).
  { intros w'. specialize (Hall w').
    destruct (fst (requests_get rt w' (request_url rt tok))) as [|st json];
      [reflexivity|]. cbn in *. rewrite Hall. reflexivity. }
  destruct (attempts_all_caught rt _ Hc RETRY_LIMIT INITIAL_RETRY_DELAY w)
    as [Hr Hev].
  unfold fetch_product.
  destruct (attempts rt RETRY_LIMIT _ _ w) as [[r w'] evs]. cbn in *. subst.
  repeat split; reflexivity.
Qed.

Lemma retry_budget_witness :
  snd (fetch_product busy_server (Some "B") tt)
  = [Get (token_url "B"); Sleep 1; Get (token_url "B"); Sleep 2;
     Get (token_url "B"); Sleep 4; Get (token_url "B"); Sleep 8;
     Get (token_url "B"); Sleep 16].
Proof.
  exact (proj1 (proj2 (retry_budget busy_server (Some "B") tt
                         (fun w' => eq_refl)))).
Defined.

(** C3, as the code has it. A response with an error status (400 to 599,
    so also every status the specification calls fatal) does not end the
    fetch: at any attempt, [fetch_product] sleeps for the current delay,
    doubles it and goes on with the attempts that are left.  When every
    answer for the token has such a status, the fetch makes [RETRY_LIMIT]
    requests, sleeps 1, 2, 4, 8 and 16 seconds, and then raises the
    exception that names the token. *)
Theorem error_status_is_retried {W : Type} (rt : runtime W)
  (tok : option string) :
  (forall (n : nat) (d : Z) (w w1 : W) (status_code : Z) (json : body),
      requests_get rt w (request_url rt tok) = (Response status_code json, w1) ->
      raises_for_status status_code = true ->
      attempts rt (S n) (request_url rt tok) d w
      = after [Get (request_url rt tok); Sleep d]
          (attempts rt n (request_url rt tok) (d * 2) (time_sleep rt w1 d)))
  /\ (forall w : W,
        (forall w', error_status (fst (requests_get rt w' (request_url rt tok)))
                    = true) ->
        fst (fst (fetch_product rt tok w))
        = inr (Exception (failure_message tok))
        /\ snd (fetch_product rt tok w)
           = [Get (request_url rt tok); Sleep 1;
              Get (request_url rt tok); Sleep 2;
              Get (request_url rt tok); Sleep 4;
              Get (request_url rt tok); Sleep 8;
              Get (request_url rt tok); Sleep 16]).
Proof.
  split.
  - intros n d w w1 st json Hget Hst.
    apply (attempts_backoff rt n _ d w _ w1 Hget).
    cbn. rewrite Hst, orb_true_r. reflexivity.
  - intros w Hall.
    assert (Hc : forall w', caught (fst (requests_get rt w' (request_url rt tok)))
                            = true).
    { intros w'. specialize (Hall w').
      destruct (fst (requests_get rt w' (request_url rt tok))) as [|st json];
        [discriminate|]. cbn in *. rewrite Hall, orb_true_r. reflexivity. }
    destruct (attempts_all_caught rt _ Hc RETRY_LIMIT INITIAL_RETRY_DELAY w)
      as [Hr Hev].
    unfold fetch_product.
    destruct (attempts rt RETRY_LIMIT _ _ w) as [[r w'] evs].
    cbn [fst snd] in *. subst. split; reflexivity.
Qed.

Lemma error_status_is_retried_witness :
  fst (fst (fetch_product page2_400_server (Some "C") tt))
  = inr (Exception (failure_message (Some "C")))
  /\ snd (fetch_product page2_400_server (Some "C") tt)
     = [Get (token_url "C"); Sleep 1; Get (token_url "C"); Sleep 2;
        Get (token_url "C"); Sleep 4; Get (token_url "C"); Sleep 8;
        Get (token_url "C"); Sleep 16].
Proof.
  apply (proj2 (error_status_is_retried page2_400_server (Some "C")) tt).
  intros []. reflexivity.
Defined.

(** C3 as the specification states it fails: the page of B answers 400, and
    the fetch makes five requests and sleeps five times before it fails. *)
Lemma fatal_status_not_immediate :
  fetch_product page2_400_server (Some "B") tt
  = (inr (Exception
            "Failed to fetch product data for token: B after several retries"),
     tt,
     [Get (token_url "B"); Sleep 1; Get (token_url "B"); Sleep 2;
      Get (token_url "B"); Sleep 4; Get (token_url "B"); Sleep 8;
      Get (token_url "B"); Sleep 16]).
Proof. vm_compute. reflexivity. Qed.

(** ** The traversal *)

Lemma absorbed_app evs evs' :
  absorbed (evs ++ evs') = (absorbed evs + absorbed evs')%nat.
Proof. unfold absorbed. rewrite List.filter_app, length_app. reflexivity. Qed.

Lemma absorbed_cons e evs :
  absorbed (e :: evs) = ((if is_added e then 1 else 0) + absorbed evs)%nat.
Proof. unfold absorbed. cbn. destruct (is_added e); reflexivity. Qed.

Ltac count_absorbed :=
  repeat first [rewrite absorbed_app | rewrite absorbed_cons];
  change (absorbed []) with 0%nat; cbn [is_added].

Section TraversalFacts.
Context {W : Type} (rt : runtime W).

Lemma fetch_product_absorbed tok w r w' evs :
    fetch_product rt tok w = (r, w', evs) -> absorbed evs = 0%nat.
  Proof.
    intros H. pose proof (fetch_product_events rt tok w) as Hev.
    rewrite H in Hev. cbn in Hev. clear H.
    induction Hev as [|e evs He _ IH]; [reflexivity|].
    rewrite absorbed_cons. destruct He as [->|[d ->]]; cbn; exact IH.
  Qed.

(** A chain served without failure, each page with its [product_id], is
    walked to its end: the loop leaves, having appended the pages in
    order. *)
Lemma loop_chain : forall fuel front last s,
  Forall (fun p => truthy (next_product_token p) = true) front ->
  truthy (next_product_token last) = false ->
  identified (front ++ [last]) ->
  serves rt (world s) (token s) (front ++ [last]) ->
  (length (front ++ [last]) <= 2 * fuel)%nat ->
  exists s' evs,
    loop rt fuel s = (Some (exit_of (length (front ++ [last]))), s', evs)
    /\ products s' = products s ++ front ++ [last]
    /\ token s' = next_product_token last
    /\ absorbed evs = length (front ++ [last]).
Proof.
  induction fuel as [|fuel IH];
    intros front last s Hfront Hlast Hids Hserves Hlen.
  { rewrite length_app in Hlen. cbn in Hlen. lia. }
  destruct front as [|p [|q front]].
  - (* one page: the main thread fetches it and leaves at line 76 *)
    destruct Hserves as (w1 & evs1 & Hf1 & _).
    destruct (product_id last) as [id|] eqn:Hid;
      [|exfalso; exact (Forall_inv Hids Hid)].
    cbn [loop]. unfold iteration, list_append. rewrite Hf1, Hid, Hlast.
    cbn [negb].
    eexists _, _. split; [reflexivity|]. cbn [products token]. repeat split.
    count_absorbed. rewrite (fetch_product_absorbed _ _ _ _ _ Hf1).
    reflexivity.
  - (* two pages: the executor fetches the last and the loop leaves at
       line 100 *)
    destruct Hserves as (w1 & evs1 & Hf1 & w2 & evs2 & Hf2 & _).
    apply Forall_inv in Hfront.
    destruct (product_id p) as [idp|] eqn:Hidp;
      [|exfalso; exact (Forall_inv Hids Hidp)].
    destruct (product_id last) as [id|] eqn:Hid;
      [|exfalso; exact (Forall_inv (Forall_inv_tail Hids) Hid)].
    cbn [loop]. unfold iteration, list_append. rewrite Hf1, Hidp, Hfront.
    cbn [negb].
    cbn [as_completed world products token]. unfold list_append.
    rewrite Hf2, Hid, Hlast.
    cbn [negb drain token]. rewrite Hlast. cbn [negb].
    eexists _, _. split; [reflexivity|]. cbn [products token]. repeat split.
    + rewrite <- app_assoc. reflexivity.
    + count_absorbed. cbn [map]. count_absorbed.
      rewrite (fetch_product_absorbed _ _ _ _ _ Hf1),
        (fetch_product_absorbed _ _ _ _ _ Hf2).
      reflexivity.
  - (* more: two pages are appended and the loop goes on *)
    destruct Hserves as (w1 & evs1 & Hf1 & w2 & evs2 & Hf2 & Hrest).
    pose proof (Forall_inv Hfront) as Hp.
    pose proof (Forall_inv (Forall_inv_tail Hfront)) as Hq.
    pose proof (Forall_inv_tail (Forall_inv_tail Hfront)) as Hfront'.
    destruct (product_id p) as [idp|] eqn:Hidp;
      [|exfalso; exact (Forall_inv Hids Hidp)].
    destruct (product_id q) as [idq|] eqn:Hidq;
      [|exfalso; exact (Forall_inv (Forall_inv_tail Hids) Hidq)].
    pose proof (Forall_inv_tail (Forall_inv_tail Hids)) as Hids'.
    cbn [loop]. unfold iteration, list_append. rewrite Hf1, Hidp, Hp.
    cbn [negb].
    cbn [as_completed world products token]. unfold list_append.
    rewrite Hf2, Hidq, Hq.
    cbn [negb token]. rewrite Hq. cbn [negb].
    destruct (IH front last
                {| products := (products s ++ [p]) ++ [q];
                   token := next_product_token q; world := w2 |}
                Hfront' Hlast Hids' Hrest)
      as (s' & evs & Hloop & Hps & Htok & Habs).
    { cbn in Hlen |- *. lia. }
    rewrite Hloop. cbn [after].
    eexists _, _. split; [reflexivity|]. cbn [products token] in *.
    repeat split.
    + rewrite Hps, <- !app_assoc. reflexivity.
    + exact Htok.
    + count_absorbed. cbn [map]. count_absorbed.
      rewrite (fetch_product_absorbed _ _ _ _ _ Hf1),
        (fetch_product_absorbed _ _ _ _ _ Hf2), Habs.
      cbn. reflexivity.
Qed.

End TraversalFacts.

Lemma truthy_false token :
  truthy token = false <-> token = None \/ token = Some "".
Proof.
  destruct token as [[|c s]|]; cbn; split; intros H; auto;
    try discriminate; destruct H as [H|H]; discriminate.
Qed.

Lemma is_chain_split pages :
  is_chain pages = true ->
  exists front last,
    pages = front ++ [last]
    /\ Forall (fun p => truthy (next_product_token p) = true) front
    /\ truthy (next_product_token last) = false.
Proof.
  induction pages as [|p rest IH]; [discriminate|].
  destruct rest as [|q rest].
  - cbn. intros H. exists [], p. repeat split; [constructor|].
    now apply negb_true_iff.
  - intros H. change (truthy (next_product_token p) && is_chain (q :: rest) = true) in H.
    apply andb_true_iff in H as [Hp Hrest].
    destruct (IH Hrest) as (front & last & -> & Hfront & Hlast).
    exists (p :: front), last. repeat split; [constructor|]; assumption.
Qed.

(** C6. For every chain whose Nth page carries no next token (absent or
    empty) while the pages before it carry one, each page carrying its
    [product_id], a run in which no fetch fails leaves the loop after
    appending exactly those N pages: through the exit of line 76 when N is
    odd and through the exit of line 100 when N is even, within (N+1)/2
    turns of the loop. *)
Theorem chain_terminates {W : Type} (rt : runtime W) (w : W)
  (front : list product) (last : product) (fuel : nat) :
  Forall (fun p => truthy (next_product_token p) = true) front ->
  next_product_token last = None \/ next_product_token last = Some "" ->
  identified (front ++ [last]) ->
  serves rt w None (front ++ [last]) ->
  (length (front ++ [last]) <= 2 * fuel)%nat ->
  exists s' evs,
    loop rt fuel (initial w)
    = (Some (exit_of (length (front ++ [last]))), s', evs)
    /\ products s' = front ++ [last]
    /\ absorbed evs = length (front ++ [last])
    /\ truthy (token s') = false.
Proof.
  intros Hfront Hlast Hids Hserves Hlen. apply truthy_false in Hlast.
  destruct (loop_chain rt fuel front last (initial w) Hfront Hlast Hids
              Hserves Hlen)
    as (s' & evs & Hloop & Hps & Htok & Habs).
  exists s', evs. rewrite Htok. auto.
Qed.

Lemma chain_terminates_witness :
  exists s' evs,
    loop three_page_server 2 (initial tt) = (Some DirectExit, s', evs)
    /\ products s' = three_pages
    /\ absorbed evs = 3%nat
    /\ truthy (token s') = false.
Proof.
  apply (chain_terminates three_page_server tt
           [page 1 (Some "B"); page 2 (Some "C")] (page 3 None) 2).
  - repeat constructor.
  - left. reflexivity.
  - repeat constructor; discriminate.
  - repeat (eexists; eexists; split; [vm_compute; reflexivity|]). exact I.
  - cbn. lia.
Defined.

Lemma occurrences_absent id ps :
  ~ In (Some id) (map product_id ps) -> occurrences id ps = 0%nat.
Proof.
  unfold occurrences. induction ps as [|p ps IH]; intros Hno; [reflexivity|].
  cbn [List.filter]. destruct (product_id p) as [i|] eqn:Hp.
  - destruct (Z.eqb i id) eqn:E.
    + apply Z.eqb_eq in E. subst i. exfalso. apply Hno. cbn. left. exact Hp.
    + apply IH. intros H. apply Hno. cbn. right. exact H.
  - apply IH. intros H. apply Hno. cbn. right. exact H.
Qed.

Lemma occurrences_nodup id ps :
  List.NoDup (map product_id ps) ->
  In (Some id) (map product_id ps) ->
  occurrences id ps = 1%nat.
Proof.
  induction ps as [|p ps IH]; intros Hnd Hin; [destruct Hin|].
  cbn [map] in Hnd, Hin. apply NoDup_cons_iff in Hnd as [Hnotin Hnd].
  unfold occurrences. cbn [List.filter].
  destruct Hin as [Hp|Hin].
  - rewrite Hp, Z.eqb_refl. cbn [length]. f_equal.
    apply occurrences_absent. rewrite <- Hp. exact Hnotin.
  - destruct (product_id p) as [i|] eqn:Hp.
    + destruct (Z.eqb i id) eqn:E.
      * apply Z.eqb_eq in E. subst i. contradiction.
      * exact (IH Hnd Hin).
    + exact (IH Hnd Hin).
Qed.

(** C1, as the code has it. For every finite token chain whose pages each
    carry their [product_id], and every run in which no fetch fails, the
    list [fetch_all_products_parallel] returns is the list of the pages of
    the chain, in order, the fetches alternating between the main thread
    and the executor: its length is the number of pages, and an identifier
    occurs in it as often as among the pages of the chain, so exactly once
    when the pages of the chain carry distinct identifiers. *)
Theorem all_pages_collected {W : Type} (rt : runtime W) (w : W)
  (pages : list product) (fuel : nat) :
  is_chain pages = true ->
  identified pages ->
  serves rt w None pages ->
  (length pages <= 2 * fuel)%nat ->
  exists ps,
    fetch_all_products_parallel rt fuel w = Some ps
    /\ ps = pages
    /\ length ps = length pages
    /\ (forall id, occurrences id ps = occurrences id pages)
    /\ (List.NoDup (map product_id pages) ->
        forall id, In (Some id) (map product_id ps) ->
                   occurrences id ps = 1%nat).
Proof.
  intros Hchain Hids Hserves Hlen.
  destruct (is_chain_split pages Hchain) as (front & last & -> & Hfront & Hlast).
  destruct (loop_chain rt fuel front last (initial w) Hfront Hlast Hids
              Hserves Hlen)
    as (s' & evs & Hloop & Hps & _).
  exists (front ++ [last]). unfold fetch_all_products_parallel.
  rewrite Hloop, Hps. repeat split.
  intros Hnd id Hin. exact (occurrences_nodup id _ Hnd Hin).
Qed.

Lemma all_pages_collected_witness :
  exists ps,
    fetch_all_products_parallel three_page_server 2 tt = Some ps
    /\ ps = three_pages
    /\ length ps = length three_pages
    /\ (forall id, occurrences id ps = occurrences id three_pages)
    /\ (List.NoDup (map product_id three_pages) ->
        forall id, In (Some id) (map product_id ps) ->
                   occurrences id ps = 1%nat).
Proof.
  apply (all_pages_collected three_page_server tt three_pages 2).
  - reflexivity.
  - repeat constructor; discriminate.
  - repeat (eexists; eexists; split; [vm_compute; reflexivity|]). exact I.
  - cbn. lia.
Defined.

(** C1 as the specification states it fails: a chain of two pages that
    carry the same identifier is served without a failing fetch, and the
    identifier occurs twice in the list returned. *)
Lemma repeated_identifier_collected :
  is_chain [page 7 (Some "B"); page 7 None] = true
  /\ serves same_id_server tt None [page 7 (Some "B"); page 7 None]
  /\ exists ps,
       fetch_all_products_parallel same_id_server 1 tt = Some ps
       /\ length ps = 2%nat
       /\ occurrences 7 ps = 2%nat.
Proof.
  split; [reflexivity|]. split.
  - repeat (eexists; eexists; split; [vm_compute; reflexivity|]). exact I.
  - eexists. split; [vm_compute; reflexivity|]. split; reflexivity.
Qed.

(** ** What the loop keeps *)

Lemma with_id_app ps ps' : with_id (ps ++ ps') = (with_id ps + with_id ps')%nat.
Proof. unfold with_id. rewrite List.filter_app, length_app. reflexivity. Qed.

Lemma with_id_le ps : (with_id ps <= length ps)%nat.
Proof. unfold with_id. apply List.filter_length_le. Qed.

Lemma with_id_identified ps : identified ps -> with_id ps = length ps.
Proof.
  unfold with_id. induction 1 as [|p ps Hp _ IH]; [reflexivity|].
  cbn [List.filter]. destruct (product_id p); [|contradiction].
  cbn [length]. rewrite IH. reflexivity.
Qed.

Section Growth.
Context {W : Type} (rt : runtime W).

Lemma drain_absorbed futures : forall w,
  absorbed (snd (drain rt futures w)) = 0%nat.
Proof.
  induction futures as [|t rest IH]; intros w; [reflexivity|].
  cbn [drain]. destruct (fetch_product rt t w) as [[r w1] evs] eqn:Hf.
  specialize (IH w1). destruct (drain rt rest w1) as [w2 evs'].
  cbn [snd] in *. count_absorbed.
  rewrite (fetch_product_absorbed rt _ _ _ _ _ Hf), IH. reflexivity.
Qed.

(** The [for] loop over the futures only appends, and prints one line per
    page appended that carries its [product_id]. *)
Lemma as_completed_grows futures : forall s,
  exists more,
    products (fst (as_completed rt futures s)) = products s ++ more
    /\ absorbed (snd (as_completed rt futures s)) = with_id more.
Proof.
  induction futures as [|t rest IH]; intros s.
  - exists []. cbn. rewrite app_nil_r. split; reflexivity.
  - cbn [as_completed].
    destruct (fetch_product rt t (world s)) as [[[result|e] w1] evs] eqn:Hf.
    + destruct (product_id result) as [id|] eqn:Hid.
      * destruct (truthy (next_product_token result)); cbn [negb].
        -- match goal with |- context [as_completed rt rest ?s1] =>
             destruct (IH s1) as (more & Hm & Hl);
             destruct (as_completed rt rest s1) as [s' evs'] end.
           cbn [fst snd products] in *. exists (result :: more).
           unfold list_append in Hm. rewrite Hm, <- app_assoc.
           split; [reflexivity|].
           count_absorbed.
           rewrite (fetch_product_absorbed rt _ _ _ _ _ Hf), Hl.
           change (result :: more) with ([result] ++ more).
           rewrite with_id_app. unfold with_id at 2. cbn. rewrite Hid.
           reflexivity.
        -- pose proof (drain_absorbed rest w1) as Hd.
           destruct (drain rt rest w1) as [w2 evs'].
           cbn [fst snd products] in *.
           exists [result]. split; [reflexivity|]. count_absorbed.
           rewrite (fetch_product_absorbed rt _ _ _ _ _ Hf), Hd.
           unfold with_id. cbn. rewrite Hid. reflexivity.
      * match goal with |- context [as_completed rt rest ?s1] =>
          destruct (IH s1) as (more & Hm & Hl);
          destruct (as_completed rt rest s1) as [s' evs'] end.
        cbn [fst snd products] in *. exists (result :: more).
        unfold list_append in Hm. rewrite Hm, <- app_assoc.
        split; [reflexivity|].
        count_absorbed.
        rewrite (fetch_product_absorbed rt _ _ _ _ _ Hf), Hl.
        change (result :: more) with ([result] ++ more).
        rewrite with_id_app. unfold with_id at 2. cbn. rewrite Hid.
        reflexivity.
    + match goal with |- context [as_completed rt rest ?s1] =>
        destruct (IH s1) as (more & Hm & Hl);
        destruct (as_completed rt rest s1) as [s' evs'] end.
      cbn [fst snd products] in *. exists more. split; [exact Hm|].
      count_absorbed. rewrite (fetch_product_absorbed rt _ _ _ _ _ Hf), Hl.
      reflexivity.
Qed.

Lemma iteration_grows s :
  exists more,
    products (snd (fst (iteration rt s))) = products s ++ more
    /\ absorbed (snd (iteration rt s)) = with_id more.
Proof.
  unfold iteration.
  destruct (fetch_product rt (token s) (world s))
    as [[[product_data|e] w1] evs] eqn:Hf.
  - destruct (product_id product_data) as [id|] eqn:Hid.
    + destruct (truthy (next_product_token product_data)); cbn [negb].
      * match goal with |- context [as_completed rt ?fs ?s1] =>
          destruct (as_completed_grows fs s1) as (more & Hm & Hl);
          destruct (as_completed rt fs s1) as [s' evs'] end.
        cbn [fst snd products] in *. exists (product_data :: more).
        unfold list_append in Hm. rewrite Hm, <- app_assoc.
        split; [reflexivity|].
        count_absorbed. cbn [map]. count_absorbed.
        rewrite (fetch_product_absorbed rt _ _ _ _ _ Hf), Hl.
        change (product_data :: more) with ([product_data] ++ more).
        rewrite with_id_app. unfold with_id at 2. cbn. rewrite Hid.
        reflexivity.
      * cbn [fst snd products]. exists [product_data].
        split; [reflexivity|].
        count_absorbed. rewrite (fetch_product_absorbed rt _ _ _ _ _ Hf).
        unfold with_id. cbn. rewrite Hid. reflexivity.
    + cbn [fst snd products]. exists [product_data]. split; [reflexivity|].
      count_absorbed. rewrite (fetch_product_absorbed rt _ _ _ _ _ Hf).
      unfold with_id. cbn. rewrite Hid. reflexivity.
  - cbn [fst snd products]. exists []. rewrite app_nil_r.
    split; [reflexivity|]. count_absorbed.
    rewrite (fetch_product_absorbed rt _ _ _ _ _ Hf). reflexivity.
Qed.

Lemma loop_grows fuel : forall s,
  exists more,
    products (snd (fst (loop rt fuel s))) = products s ++ more
    /\ absorbed (snd (loop rt fuel s)) = with_id more.
Proof.
  induction fuel as [|fuel IH]; intros s.
  - exists []. cbn. rewrite app_nil_r. split; reflexivity.
  - cbn [loop]. destruct (iteration_grows s) as (more & Hm & Hl).
    destruct (iteration rt s) as [[c s1] evs]. cbn [fst snd] in *.
    destruct c as [|b].
    + destruct (IH s1) as (more' & Hm' & Hl').
      destruct (loop rt fuel s1) as [[c' s'] evs']. cbn [after fst snd] in *.
      exists (more ++ more'). rewrite Hm', Hm, <- app_assoc.
      split; [reflexivity|]. rewrite with_id_app, absorbed_app. lia.
    + exists more. cbn [fst snd]. split; assumption.
Qed.

End Growth.

(** C2, as the code has it. When the fetch for a token fails, on the main
    thread or, after a page with its [product_id] and a token, through the
    executor, the exception is caught inside the loop: the error is printed (there is no failure log, and nothing tells
    a fatal failure from exhausted retries), the products collected so far
    and the current token stay as they are, and the loop goes on to its
    next turn.  Whatever number of turns the loop takes, the list only
    grows at its end. *)
Theorem failure_is_caught {W : Type} (rt : runtime W) (s : state W) :
  (forall e w1 evs,
      fetch_product rt (token s) (world s) = (inr e, w1, evs) ->
      iteration rt s
      = (Continue,
         {| products := products s; token := token s; world := w1 |},
         evs ++ [Print (ErrorOccurred e)]))
  /\ (forall p id w1 evs e w2 evs',
        fetch_product rt (token s) (world s) = (inl p, w1, evs) ->
        product_id p = Some id ->
        truthy (next_product_token p) = true ->
        fetch_product rt (next_product_token p) w1 = (inr e, w2, evs') ->
        iteration rt s
        = (Continue,
           {| products := products s ++ [p];
              token := next_product_token p; world := w2 |},
           evs ++ [Print (Added id (S (length (products s))))]
             ++ [Submit (next_product_token p)]
             ++ evs' ++ [Done (next_product_token p); Print (ErrorFuture e)]))
  /\ (forall fuel,
        exists more, products (snd (fst (loop rt fuel s))) = products s ++ more).
Proof.
  split; [|split].
  - intros e w1 evs Hf. unfold iteration. rewrite Hf. reflexivity.
  - intros p id w1 evs e w2 evs' Hf Hid Htok Hf'.
    unfold iteration, list_append.
    rewrite Hf, Hid, Htok. cbn [negb as_completed world products token].
    rewrite Hf'. cbn [token]. rewrite Htok. cbn [negb map].
    rewrite length_app, Nat.add_1_r, app_nil_r. reflexivity.
  - intros fuel. destruct (loop_grows rt fuel s) as (more & Hm & _).
    exists more. exact Hm.
Qed.

Lemma failure_is_caught_witness :
  exists evs,
    iteration page2_400_server stuck_at_B
    = (Continue, stuck_at_B,
       evs ++ [Print (ErrorOccurred
                        (Exception
                           "Failed to fetch product data for token: B after several retries"))]).
Proof.
  eexists.
  apply (proj1 (failure_is_caught page2_400_server stuck_at_B)
           (Exception
              "Failed to fetch product data for token: B after several retries")
           tt).
  vm_compute. reflexivity.
Defined.

Lemma stuck_turn :
  exists evs,
    iteration page2_400_server stuck_at_B = (Continue, stuck_at_B, evs).
Proof. eexists. vm_compute. reflexivity. Qed.

Lemma stuck_at_B_forever fuel :
  fst (loop page2_400_server fuel stuck_at_B) = (None, stuck_at_B).
Proof.
  induction fuel as [|fuel IH]; [reflexivity|].
  cbn [loop]. destruct stuck_turn as [evs ->].
  destruct (loop page2_400_server fuel stuck_at_B) as [[c s'] evs'].
  cbn in *. exact IH.
Qed.

(** C2 as the specification states it fails: when page 2 is answered 400,
    page 1 is collected and the loop then turns for ever on the token of
    page 2, so the run does not end and returns no list. *)
Lemma page2_400_never_returns :
  ~ (exists fuel ps,
        fetch_all_products_parallel page2_400_server fuel tt = Some ps).
Proof.
  intros (fuel & ps & H). unfold fetch_all_products_parallel in H.
  destruct fuel as [|fuel]; [discriminate|].
  cbn [loop] in H.
  assert (Hit : exists evs,
             iteration page2_400_server (initial tt)
             = (Continue, stuck_at_B, evs))
    by (eexists; vm_compute; reflexivity).
  destruct Hit as [evs Hit]. rewrite Hit in H.
  pose proof (stuck_at_B_forever fuel) as Hs.
  destruct (loop page2_400_server fuel stuck_at_B) as [[c s'] evs'].
  cbn in *. inversion Hs; subst. discriminate.
Qed.

Lemma occurrences_app id ps ps' :
  occurrences id (ps ++ ps')
  = (occurrences id ps + occurrences id ps')%nat.
Proof.
  unfold occurrences. rewrite List.filter_app, length_app. reflexivity.
Qed.

(** C5, as the code has it. The collection is a list and absorbing a page
    is [products.append]: every page a fetch returns is appended, at line
    65 as at line 87, whatever identifier it carries, so absorbing two
    pages that share an identifier leaves the list two entries longer, both
    entries with that identifier.  Along every run the list is longer by
    at least the number of pages reported as added, and by exactly that
    number when every page collected carries its [product_id]. *)
Theorem absorb_appends {W : Type} (rt : runtime W) (s : state W) :
  (forall p w1 evs,
      fetch_product rt (token s) (world s) = (inl p, w1, evs) ->
      exists rest,
        products (snd (fst (iteration rt s)))
        = list_append (products s) p ++ rest)
  /\ (forall p id w1 evs q w2 evs2,
        fetch_product rt (token s) (world s) = (inl p, w1, evs) ->
        product_id p = Some id ->
        truthy (next_product_token p) = true ->
        fetch_product rt (next_product_token p) w1 = (inl q, w2, evs2) ->
        products (snd (fst (iteration rt s)))
        = list_append (list_append (products s) p) q
        /\ (product_id q = Some id ->
            occurrences id (products (snd (fst (iteration rt s))))
            = S (S (occurrences id (products s)))))
  /\ (forall fuel,
        (length (products s) + absorbed (snd (loop rt fuel s))
         <= length (products (snd (fst (loop rt fuel s)))))%nat
        /\ (identified (products (snd (fst (loop rt fuel s)))) ->
            length (products (snd (fst (loop rt fuel s))))
            = (length (products s) + absorbed (snd (loop rt fuel s)))%nat)).
Proof.
  split; [|split].
  - intros p w1 evs Hf. unfold iteration. rewrite Hf.
    destruct (product_id p) as [id|];
      [|exists []; cbn [fst snd products]; rewrite app_nil_r; reflexivity].
    destruct (truthy (next_product_token p)); cbn [negb];
      [|exists []; cbn [fst snd products]; rewrite app_nil_r; reflexivity].
    match goal with |- context [as_completed rt ?fs ?s1] =>
      destruct (as_completed_grows rt fs s1) as (more & Hm & _);
      destruct (as_completed rt fs s1) as [s' evs'] end.
    cbn [fst snd products] in *. exists more. exact Hm.
  - intros p id w1 evs q w2 evs2 Hf Hid Htok Hf2.
    assert (Hps : products (snd (fst (iteration rt s)))
                  = list_append (list_append (products s) p) q).
    { unfold iteration. rewrite Hf, Hid, Htok.
      cbn [negb as_completed world products token]. rewrite Hf2.
      destruct (product_id q) as [idq|]; [|reflexivity].
      destruct (truthy (next_product_token q)); reflexivity. }
    split; [exact Hps|]. intros Hq. rewrite Hps. unfold list_append.
    rewrite !occurrences_app. unfold occurrences at 2 3. cbn.
    rewrite Hid, Hq, Z.eqb_refl. cbn. lia.
  - intros fuel. destruct (loop_grows rt fuel s) as (more & Hm & Hl).
    rewrite Hm, Hl, length_app. split.
    + pose proof (with_id_le more). lia.
    + intros Hids. apply Forall_app in Hids as [_ Hmore].
      rewrite (with_id_identified more Hmore). reflexivity.
Qed.

Lemma absorb_appends_witness :
  products (snd (fst (iteration same_id_server (initial tt))))
  = list_append (list_append [] (page 7 (Some "B"))) (page 7 None)
  /\ occurrences 7 (products (snd (fst (iteration same_id_server (initial tt)))))
     = 2%nat.
Proof.
  destruct (proj1 (proj2 (absorb_appends same_id_server (initial tt)))
              (page 7 (Some "B")) 7 tt [Get BASE_URL] (page 7 None) tt
              [Get (token_url "B")]) as [H1 H2].
  - vm_compute. reflexivity.
  - reflexivity.
  - reflexivity.
  - vm_compute. reflexivity.
  - split; [exact H1|exact (H2 eq_refl)].
Defined.

(** C5 as the specification states it fails: two pages of a chain share
    the identifier 7, and the list returned holds both. *)
Lemma duplicate_identifier_kept :
  exists ps,
    fetch_all_products_parallel same_id_server 1 tt = Some ps
    /\ length ps = 2%nat
    /\ map product_id ps = [Some 7; Some 7].
Proof. eexists. split; [vm_compute; reflexivity|]. split; reflexivity. Qed.

(** ** [analyze_products] *)

Lemma Qgtb_true x y : Qgtb x y = true <-> (y < x)%Q.
Proof.
  unfold Qgtb. rewrite negb_true_iff. split.
  - intros H. apply Qnot_le_lt. intros Hle.
    apply Qle_bool_iff in Hle. congruence.
  - intros H. destruct (Qle_bool x y) eqn:E; [|reflexivity].
    apply Qle_bool_iff in E. exfalso. exact (Qlt_not_le _ _ H E).
Qed.

Lemma Qgtb_false x y : Qgtb x y = false <-> (x <= y)%Q.
Proof.
  unfold Qgtb. rewrite negb_false_iff. apply Qle_bool_iff.
Qed.

Section Analysis.
Context (ar : arithmetic).

(** What one turn of the loop does when it does not raise. *)
Lemma analyze_step_inl t p t' :
  analyze_step ar t p = inl t' ->
  category_counts t'
  = <[category p := S (default 0%nat (category_counts t !! category p))]>
      (category_counts t)
  /\ toys_games_total_price t'
     = (if String.eqb (category p) "Toys & Games"
        then py_add ar (toys_games_total_price t) (price p)
        else toys_games_total_price t)
  /\ toys_games_count t'
     = (if String.eqb (category p) "Toys & Games"
        then S (toys_games_count t) else toys_games_count t)
  /\ ((category p = "Fashion"
       /\ (fashion_price (most_expensive_fashion t) < price p)%Q
       /\ exists id, product_id p = Some id
                     /\ most_expensive_fashion t'
                        = Full id (product_name p) (price p))
      \/ ((category p = "Fashion" ->
           (price p <= fashion_price (most_expensive_fashion t))%Q)
          /\ most_expensive_fashion t' = most_expensive_fashion t)).
Proof.
  unfold analyze_step.
  destruct (String.eqb (category p) "Fashion") eqn:Hc; cbn [andb].
  - apply String.eqb_eq in Hc.
    destruct (Qgtb (price p) (fashion_price (most_expensive_fashion t)))
      eqn:Hg.
    + apply Qgtb_true in Hg.
      destruct (product_id p) as [id|]; [|discriminate].
      intros H. injection H as <-. cbn. repeat split.
      left. repeat split; eauto.
    + apply Qgtb_false in Hg. intros H. injection H as <-. cbn.
      repeat split. right. split; [intros _; exact Hg|reflexivity].
  - apply String.eqb_neq in Hc. intros H. injection H as <-. cbn.
    repeat split. right. split; [intros Hf; contradiction|reflexivity].
Qed.

(** The only exception of a turn is the [KeyError] of line 134. *)
Lemma analyze_step_inr t p e :
  analyze_step ar t p = inr e ->
  e = MissingKey "product_id" /\ product_id p = None.
Proof.
  unfold analyze_step.
  destruct (String.eqb (category p) "Fashion"
            && Qgtb (price p) (fashion_price (most_expensive_fashion t)));
    [|discriminate].
  destruct (product_id p); [discriminate|].
  intros H. injection H as <-. split; reflexivity.
Qed.

Lemma analyze_loop_inr ps : forall t e,
  analyze_loop ar ps t = inr e -> e = MissingKey "product_id".
Proof.
  induction ps as [|p ps IH]; intros t e; [discriminate|].
  cbn [analyze_loop]. destruct (analyze_step ar t p) as [t'|e'] eqn:E.
  - apply IH.
  - intros H. injection H as <-. exact (proj1 (analyze_step_inr _ _ _ E)).
Qed.

(** The loop does not raise on pages that carry their [product_id]. *)
Lemma analyze_loop_total ps : forall t,
  identified ps -> exists t', analyze_loop ar ps t = inl t'.
Proof.
  induction ps as [|p ps IH]; intros t Hids; [exists t; reflexivity|].
  cbn [analyze_loop]. destruct (analyze_step ar t p) as [t'|e] eqn:E.
  - apply IH. exact (Forall_inv_tail Hids).
  - exfalso. exact (Forall_inv Hids (proj2 (analyze_step_inr _ _ _ E))).
Qed.

(** The count of the toys is the number of toys met, and their total the
    sum of their prices, added as they come. *)
Lemma toys_games_loop ps : forall t t',
  analyze_loop ar ps t = inl t' ->
  toys_games_count t'
  = (toys_games_count t + length (toys_games ps))%nat
  /\ toys_games_total_price t'
     = fold_left (fun acc p => py_add ar acc (price p)) (toys_games ps)
         (toys_games_total_price t).
Proof.
  induction ps as [|p ps IH]; intros t t'; cbn [analyze_loop].
  - intros H. injection H as <-. cbn. split; [lia|reflexivity].
  - destruct (analyze_step ar t p) as [t1|e] eqn:E; [|discriminate].
    intros H. destruct (IH _ _ H) as [Hc Ht].
    destruct (analyze_step_inl _ _ _ E) as (_ & Htot & Hcnt & _).
    rewrite Hc, Ht, Hcnt, Htot. unfold toys_games. cbn [List.filter].
    destruct (String.eqb (category p) "Toys & Games"); cbn [length fold_left];
      split; (lia || reflexivity).
Qed.

(** The record held at the end of the loop: the one held at its start,
    no Fashion product met being dearer, or the record of the first
    Fashion product of the highest price. *)
Lemma fashion_loop ps : forall t t',
  analyze_loop ar ps t = inl t' ->
  (most_expensive_fashion t' = most_expensive_fashion t
   /\ forall p, In p ps -> category p = "Fashion" ->
        (price p <= fashion_price (most_expensive_fashion t))%Q)
  \/ first_maximum ps (fashion_price (most_expensive_fashion t))
       (most_expensive_fashion t').
Proof.
  induction ps as [|p ps IH]; intros t t'; cbn [analyze_loop].
  - intros H. injection H as <-. left. split; [reflexivity|intros p []].
  - destruct (analyze_step ar t p) as [t1|e] eqn:E; [|discriminate].
    intros H.
    destruct (analyze_step_inl _ _ _ E)
      as (_ & _ & _ & [(Hc & Hgt & id & Hid & Hsel)|(Hle & Hkeep)]);
      destruct (IH _ _ H)
        as [(Hsame & Hall)|(before & q & after & idq & -> & Hcq & Hidq
                            & Hd & Hfloor & Hbefore & Hafter)].
    + (* [p] is selected and nothing after it is dearer *)
      right. exists [], p, ps, id. rewrite Hsame, Hsel.
      repeat split; auto; [intros b []|].
      intros a Ha Hca. specialize (Hall a Ha Hca).
      rewrite Hsel in Hall. exact Hall.
    + (* [p] is selected, a dearer product comes later *)
      right. exists (p :: before), q, after, idq.
      rewrite Hsel in Hfloor. cbn [fashion_price] in Hfloor.
      repeat split; auto.
      * eapply Qlt_trans; eassumption.
      * intros b [<-|Hb] Hcb; [exact Hfloor|exact (Hbefore b Hb Hcb)].
    + (* [p] is not selected, nor anything after it *)
      left. rewrite Hsame, Hkeep. split; [reflexivity|].
      intros a [<-|Ha] Hca; [exact (Hle Hca)|].
      specialize (Hall a Ha Hca). rewrite Hkeep in Hall. exact Hall.
    + (* [p] is not selected, a later product is *)
      right. exists (p :: before), q, after, idq.
      rewrite Hkeep in Hfloor.
      repeat split; auto.
      intros b [<-|Hb] Hcb; [|exact (Hbefore b Hb Hcb)].
      eapply Qle_lt_trans; [exact (Hle Hcb)|exact Hfloor].
Qed.

(** What [analyze_products] returns when it returns. *)
Lemma analyze_products_inl ps r :
  analyze_products ar ps = inl r ->
  exists t,
    analyze_loop ar ps initial_tally = inl t
    /\ r = (length ps, category_counts t, most_expensive_fashion t,
            if Nat.eqb (toys_games_count t) 0 then 0%Q
            else py_truediv ar (toys_games_total_price t)
                   (toys_games_count t)).
Proof.
  unfold analyze_products.
  destruct (analyze_loop ar ps initial_tally) as [t|e]; [|discriminate].
  unfold true_divide.
  destruct (Nat.eqb (toys_games_count t) 0) eqn:E;
    intros H; injection H as <-; exists t; rewrite E; split; reflexivity.
Qed.

(** It raises nothing but the [KeyError] of line 134: the division of line
    143 is never made with a zero count. *)
Lemma analyze_products_inr ps e :
  analyze_products ar ps = inr e -> e = MissingKey "product_id".
Proof.
  unfold analyze_products.
  destruct (analyze_loop ar ps initial_tally) as [t|e'] eqn:E.
  - unfold true_divide.
    destruct (Nat.eqb (toys_games_count t) 0); discriminate.
  - intros H. injection H as <-. exact (analyze_loop_inr _ _ _ E).
Qed.

Lemma analyze_products_total ps :
  identified ps -> exists r, analyze_products ar ps = inl r.
Proof.
  intros Hids. destruct (analyze_loop_total ps initial_tally Hids) as [t Ht].
  unfold analyze_products, true_divide. rewrite Ht.
  destruct (Nat.eqb (toys_games_count t) 0); eauto.
Qed.


End Analysis.

(** C9. For every product list with no product of the category
    'Toys & Games', [analyze_products] returns 0 as the average price of
    that category and does not divide: the count is zero, a division by
    it would raise [ZeroDivisionError], and the function does not raise
    it.  (It returns whenever the pages carry their [product_id]; the one
    exception it can raise is the [KeyError] of line 134.) *)
Theorem no_toys_average_zero (ar : arithmetic) (ps : list product) :
  (forall p, In p ps -> category p <> "Toys & Games") ->
  analyze_products ar ps <> inr ZeroDivisionError
  /\ (forall r, analyze_products ar ps = inl r -> average_of r = 0%Q)
  /\ (identified ps ->
      exists r, analyze_products ar ps = inl r /\ average_of r = 0%Q)
  /\ (forall t, analyze_loop ar ps initial_tally = inl t ->
        toys_games_count t = 0%nat
        /\ true_divide ar (toys_games_total_price t) (toys_games_count t)
           = inr ZeroDivisionError).
Proof.
  intros Hno.
  assert (Htoys : toys_games ps = []).
  { unfold toys_games. clear -Hno. induction ps as [|p ps IH]; [reflexivity|].
    cbn [List.filter].
    destruct (String.eqb (category p) "Toys & Games") eqn:E.
    - apply String.eqb_eq in E. exfalso. exact (Hno p (or_introl eq_refl) E).
    - apply IH. intros q Hq. apply Hno. now right. }
  assert (Hcount : forall t, analyze_loop ar ps initial_tally = inl t ->
                             toys_games_count t = 0%nat).
  { intros t Ht. rewrite (proj1 (toys_games_loop ar ps _ _ Ht)), Htoys.
    reflexivity. }
  assert (Havg : forall r, analyze_products ar ps = inl r ->
                           average_of r = 0%Q).
  { intros r Hr. destruct (analyze_products_inl ar ps r Hr) as (t & Ht & ->).
    unfold average_of. cbn [snd]. rewrite (Hcount t Ht). reflexivity. }
  split; [|split; [exact Havg|split]].
  - intros H. apply analyze_products_inr in H. discriminate.
  - intros Hids. destruct (analyze_products_total ar ps Hids) as [r Hr].
    exists r. split; [exact Hr|exact (Havg r Hr)].
  - intros t Ht. split; [exact (Hcount t Ht)|].
    rewrite (Hcount t Ht). reflexivity.
Qed.

Lemma no_toys_average_zero_witness :
  analyze_products exact_arithmetic three_pages <> inr ZeroDivisionError
  /\ (forall r, analyze_products exact_arithmetic three_pages = inl r ->
        average_of r = 0%Q)
  /\ (identified three_pages ->
      exists r, analyze_products exact_arithmetic three_pages = inl r
                /\ average_of r = 0%Q)
  /\ (forall t, analyze_loop exact_arithmetic three_pages initial_tally = inl t ->
        toys_games_count t = 0%nat
        /\ true_divide exact_arithmetic (toys_games_total_price t)
             (toys_games_count t)
           = inr ZeroDivisionError).
Proof.
  apply (no_toys_average_zero exact_arithmetic three_pages).
  intros p Hp. cbn in Hp.
  destruct Hp as [<-|[<-|[<-|[]]]]; cbn; discriminate.
Defined.



(** ** The parallel traversal against the sequential one *)

Lemma erase_app evs evs' : erase (evs ++ evs') = erase evs ++ erase evs'.
Proof. unfold erase. apply flat_map_app. Qed.

Lemma after_after {A B : Type} evs evs' (r : A * B * list event) :
  after evs (after evs' r) = after (evs ++ evs') r.
Proof. destruct r as [[a b] evs'']. cbn. rewrite app_assoc. reflexivity. Qed.

Ltac same_trace :=
  cbn;
  repeat first [rewrite <- app_assoc | rewrite <- app_comm_cons];
  cbn [app]; reflexivity.

Section Sequential.
Context {W : Type} (rt : runtime W).

Lemma erase_fetch tok w r w' evs :
    fetch_product rt tok w = (r, w', evs) -> erase evs = evs.
  Proof.
    intros H. pose proof (fetch_product_events rt tok w) as Hev.
    rewrite H in Hev. cbn in Hev. clear H.
    induction Hev as [|e evs He _ IH]; [reflexivity|].
    change (erase (e :: evs)) with (erase_event e ++ erase evs). rewrite IH.
    destruct He as [->|[d ->]]; reflexivity.
  Qed.

  (** More fuel does not change a run that has left the loop. *)
Lemma sequential_loop_mono fuel : forall s b s' evs fuel',
    sequential_loop rt fuel s = (Some b, s', evs) ->
    (fuel <= fuel')%nat ->
    sequential_loop rt fuel' s = (Some b, s', evs).
  Proof.
    induction fuel as [|fuel IH]; intros s b s' evs fuel' H Hle;
      [discriminate|].
    destruct fuel' as [|fuel']; [lia|].
    cbn [sequential_loop] in *.
    destruct (sequential_iteration rt s) as [[c s1] evs1].
    destruct c as [|b1]; [|exact H].
    destruct (sequential_loop rt fuel s1) as [[c2 s2] evs2] eqn:E.
    cbn [after] in H. injection H as -> -> <-.
    rewrite (IH s1 b s' evs2 fuel' E) by lia. reflexivity.
  Qed.

  (** Every run of the parallel loop is a run of the sequential one: a
    turn of the former is one or two turns of the latter. *)
Lemma loop_simulated fuel : forall s,
  exists fuel',
    (fuel' <= 2 * fuel)%nat
    /\ (fst (fst (loop rt fuel s)) = None -> (fuel <= fuel')%nat)
    /\ sequential_loop rt fuel' s
       = (option_map (fun _ => DirectExit) (fst (fst (loop rt fuel s))),
          snd (fst (loop rt fuel s)),
          erase (snd (loop rt fuel s))).
Proof.
  induction fuel as [|fuel IH]; intros s.
  { exists 0%nat. repeat split; cbn; lia. }
  cbn [loop]. unfold iteration, list_append.
  destruct (fetch_product rt (token s) (world s))
    as [[[p|e] w1] evs1] eqn:Hf1.
  - destruct (product_id p) as [idp|] eqn:Hidp.
    + destruct (truthy (next_product_token p)) eqn:Ht; cbn [negb].
      * cbn [as_completed world products token]. unfold list_append.
        destruct (fetch_product rt (next_product_token p) w1)
          as [[[q|e] w2] evs2] eqn:Hf2.
        -- destruct (product_id q) as [idq|] eqn:Hidq.
           ++ destruct (truthy (next_product_token q)) eqn:Ht2;
                cbn [negb drain token]; rewrite Ht2; cbn [negb].
              ** match goal with |- context [loop rt fuel ?s2] =>
                   destruct (IH s2) as (fuel' & Hle & Hnone & Hseq);
                   destruct (loop rt fuel s2) as [[c s'] evs] end.
                 cbn [fst snd after] in *.
                 exists (S (S fuel')). split; [lia|]. split.
                 { intros Hc. specialize (Hnone Hc). lia. }
                 cbn [sequential_loop].
                 unfold sequential_iteration, list_append.
                 rewrite Hf1, Hidp, Ht. cbn [negb sequential_loop].
                 unfold sequential_iteration, list_append.
                 cbn [world products token]. rewrite Hf2, Hidq, Ht2.
                 cbn [negb].
                 rewrite Hseq. cbn [after map].
                 rewrite !erase_app, (erase_fetch _ _ _ _ _ Hf1),
                   (erase_fetch _ _ _ _ _ Hf2).
                 same_trace.
              ** exists 2%nat. split; [lia|]. split; [discriminate|].
                 cbn [fst snd sequential_loop].
                 unfold sequential_iteration, list_append.
                 rewrite Hf1, Hidp, Ht. cbn [negb sequential_loop].
                 unfold sequential_iteration, list_append.
                 cbn [world products token]. rewrite Hf2, Hidq, Ht2.
                 cbn [negb after map].
                 rewrite !erase_app, (erase_fetch _ _ _ _ _ Hf1),
                   (erase_fetch _ _ _ _ _ Hf2).
                 same_trace.
           ++ cbn [token]. rewrite Ht. cbn [negb].
              match goal with |- context [loop rt fuel ?s2] =>
                destruct (IH s2) as (fuel' & Hle & Hnone & Hseq);
                destruct (loop rt fuel s2) as [[c s'] evs] end.
              cbn [fst snd after] in *.
              exists (S (S fuel')). split; [lia|]. split.
              { intros Hc. specialize (Hnone Hc). lia. }
              cbn [sequential_loop].
              unfold sequential_iteration, list_append.
              rewrite Hf1, Hidp, Ht. cbn [negb sequential_loop].
              unfold sequential_iteration, list_append.
              cbn [world products token]. rewrite Hf2, Hidq.
              rewrite Hseq. cbn [after map].
              rewrite !erase_app, (erase_fetch _ _ _ _ _ Hf1),
                (erase_fetch _ _ _ _ _ Hf2).
              same_trace.
        -- cbn [token]. rewrite Ht. cbn [negb].
           match goal with |- context [loop rt fuel ?s2] =>
             destruct (IH s2) as (fuel' & Hle & Hnone & Hseq);
             destruct (loop rt fuel s2) as [[c s'] evs] end.
           cbn [fst snd after] in *.
           exists (S (S fuel')). split; [lia|]. split.
           { intros Hc. specialize (Hnone Hc). lia. }
           cbn [sequential_loop]. unfold sequential_iteration, list_append.
           rewrite Hf1, Hidp, Ht. cbn [negb sequential_loop].
           unfold sequential_iteration, list_append.
           cbn [world products token]. rewrite Hf2.
           rewrite Hseq. cbn [after map].
           rewrite !erase_app, (erase_fetch _ _ _ _ _ Hf1),
             (erase_fetch _ _ _ _ _ Hf2).
           same_trace.
      * exists 1%nat. split; [lia|]. split; [discriminate|].
        cbn [fst snd sequential_loop].
        unfold sequential_iteration, list_append.
        rewrite Hf1, Hidp, Ht. cbn [negb].
        rewrite !erase_app, (erase_fetch _ _ _ _ _ Hf1). reflexivity.
    + match goal with |- context [loop rt fuel ?s2] =>
        destruct (IH s2) as (fuel' & Hle & Hnone & Hseq);
        destruct (loop rt fuel s2) as [[c s'] evs] end.
      cbn [fst snd after] in *.
      exists (S fuel'). split; [lia|]. split.
      { intros Hc. specialize (Hnone Hc). lia. }
      cbn [sequential_loop]. unfold sequential_iteration, list_append.
      rewrite Hf1, Hidp, Hseq. cbn [after].
      rewrite !erase_app, (erase_fetch _ _ _ _ _ Hf1). reflexivity.
  - match goal with |- context [loop rt fuel ?s2] =>
      destruct (IH s2) as (fuel' & Hle & Hnone & Hseq);
      destruct (loop rt fuel s2) as [[c s'] evs] end.
    cbn [fst snd after] in *.
    exists (S fuel'). split; [lia|]. split.
    { intros Hc. specialize (Hnone Hc). lia. }
    cbn [sequential_loop]. unfold sequential_iteration.
    rewrite Hf1, Hseq. cbn [after].
    rewrite !erase_app, (erase_fetch _ _ _ _ _ Hf1). reflexivity.
Qed.

End Sequential.

(** ** Futures in flight *)

Lemma in_flight_app n evs evs' :
  in_flight n (evs ++ evs') = in_flight (in_flight n evs) evs'.
Proof. unfold in_flight. apply fold_left_app. Qed.

Lemma peak_ge evs : forall n, (n <= peak_in_flight n evs)%nat.
Proof. induction evs as [|e evs IH]; intros n; cbn; lia. Qed.

Lemma peak_app evs evs' : forall n,
  peak_in_flight n (evs ++ evs')
  = Nat.max (peak_in_flight n evs) (peak_in_flight (in_flight n evs) evs').
Proof.
  induction evs as [|e evs IH]; intros n.
  - cbn. pose proof (peak_ge evs' n). lia.
  - cbn [app peak_in_flight]. rewrite IH. unfold in_flight. cbn [fold_left].
    apply Nat.max_assoc.
Qed.

Lemma submitted_app evs evs' :
  submitted (evs ++ evs') = (submitted evs + submitted evs')%nat.
Proof. unfold submitted. rewrite List.filter_app, length_app. reflexivity. Qed.

Lemma quiet_flight evs : quiet evs ->
  forall n,
    in_flight n evs = n /\ peak_in_flight n evs = n /\ submitted evs = 0%nat.
Proof.
  induction 1 as [|e evs He _ IH]; intros n; [repeat split|].
  destruct (IH n) as (Hi & Hp & Hs).
  destruct e; try contradiction; cbn; unfold in_flight in Hi;
    unfold submitted in Hs; cbn in *; rewrite ?Hi, ?Hp, ?Hs;
    repeat split; lia.
Qed.

Section InFlight.
Context {W : Type} (rt : runtime W).

Lemma fetch_quiet tok w r w' evs :
    fetch_product rt tok w = (r, w', evs) -> quiet evs.
  Proof.
    intros H. pose proof (fetch_product_events rt tok w) as Hev.
    rewrite H in Hev. cbn in Hev. unfold quiet.
    eapply List.Forall_impl; [|exact Hev].
    intros e [->|[d ->]]; exact I.
  Qed.

  (** Completing the futures left brings the number in flight to zero and
      never raises it. *)
Lemma drain_flight futures : forall w,
    in_flight (length futures) (snd (drain rt futures w)) = 0%nat
    /\ peak_in_flight (length futures) (snd (drain rt futures w))
       = length futures
    /\ submitted (snd (drain rt futures w)) = 0%nat.
  Proof.
    induction futures as [|t rest IH]; intros w; [repeat split|].
    cbn [drain]. destruct (fetch_product rt t w) as [[r w1] evs] eqn:Hf.
    destruct (IH w1) as (Hi & Hp & Hs).
    destruct (drain rt rest w1) as [w2 evs']. cbn [snd length] in *.
    destruct (quiet_flight evs (fetch_quiet _ _ _ _ _ Hf) (S (length rest)))
      as (Qi & Qp & Qs).
    rewrite in_flight_app, peak_app, submitted_app, Qi, Qp, Qs.
    cbn [app in_flight fold_left in_flight_after peak_in_flight pred].
    fold (in_flight (length rest) evs'). rewrite Hi, Hp.
    unfold submitted in *. cbn [List.filter is_submit]. rewrite Hs.
    repeat split; lia.
  Qed.

Lemma as_completed_flight futures : forall s,
  in_flight (length futures) (snd (as_completed rt futures s)) = 0%nat
  /\ peak_in_flight (length futures) (snd (as_completed rt futures s))
     = length futures
  /\ submitted (snd (as_completed rt futures s)) = 0%nat.
Proof.
  induction futures as [|t rest IH]; intros s; [repeat split|].
  cbn [as_completed].
  destruct (fetch_product rt t (world s)) as [[[result|e] w1] evs] eqn:Hf;
    destruct (quiet_flight evs (fetch_quiet _ _ _ _ _ Hf) (S (length rest)))
      as (Qi & Qp & Qs).
  - destruct (product_id result) as [id|].
    + destruct (truthy (next_product_token result)); cbn [negb].
      * match goal with |- context [as_completed rt rest ?s1] =>
          destruct (IH s1) as (Hi & Hp & Hs);
          destruct (as_completed rt rest s1) as [s' evs'] end.
        cbn [snd length] in *.
        rewrite in_flight_app, peak_app, submitted_app, Qi, Qp, Qs.
        cbn [app in_flight fold_left in_flight_after peak_in_flight pred].
        fold (in_flight (length rest) evs'). rewrite Hi, Hp.
        unfold submitted in *. cbn [List.filter is_submit]. rewrite Hs.
        repeat split; lia.
      * destruct (drain_flight rest w1) as (Hi & Hp & Hs).
        destruct (drain rt rest w1) as [w2 evs']. cbn [snd length] in *.
        rewrite in_flight_app, peak_app, submitted_app, Qi, Qp, Qs.
        cbn [app in_flight fold_left in_flight_after peak_in_flight pred].
        fold (in_flight (length rest) evs'). rewrite Hi, Hp.
        unfold submitted in *. cbn [List.filter is_submit]. rewrite Hs.
        repeat split; lia.
    + match goal with |- context [as_completed rt rest ?s1] =>
        destruct (IH s1) as (Hi & Hp & Hs);
        destruct (as_completed rt rest s1) as [s' evs'] end.
      cbn [snd length] in *.
      rewrite in_flight_app, peak_app, submitted_app, Qi, Qp, Qs.
      cbn [app in_flight fold_left in_flight_after peak_in_flight pred].
      fold (in_flight (length rest) evs'). rewrite Hi, Hp.
      unfold submitted in *. cbn [List.filter is_submit]. rewrite Hs.
      repeat split; lia.
  - match goal with |- context [as_completed rt rest ?s1] =>
      destruct (IH s1) as (Hi & Hp & Hs);
      destruct (as_completed rt rest s1) as [s' evs'] end.
    cbn [snd length] in *.
    rewrite in_flight_app, peak_app, submitted_app, Qi, Qp, Qs.
    cbn [app in_flight fold_left in_flight_after peak_in_flight pred].
    fold (in_flight (length rest) evs'). rewrite Hi, Hp.
    unfold submitted in *. cbn [List.filter is_submit]. rewrite Hs.
    repeat split; lia.
Qed.

End InFlight.

Section OneFuture.
Context {W : Type} (rt : runtime W).

(** A turn of the loop starts and ends with no future in flight, has at
    most one in flight meanwhile, and submits one future exactly when the
    main thread's fetch returned a page that carries its [product_id] and
    a token. *)
Lemma iteration_flight s :
  in_flight 0 (snd (iteration rt s)) = 0%nat
  /\ (peak_in_flight 0 (snd (iteration rt s)) <= 1)%nat
  /\ submitted (snd (iteration rt s))
     = match fst (fst (fetch_product rt (token s) (world s))) with
       | inl p =>
           match product_id p with
           | Some _ => if truthy (next_product_token p) then 1%nat else 0%nat
           | None => 0%nat
           end
       | inr _ => 0%nat
       end.
Proof.
  unfold iteration.
  destruct (fetch_product rt (token s) (world s))
    as [[[p|e] w1] evs] eqn:Hf;
    destruct (quiet_flight evs (fetch_quiet _ _ _ _ _ _ Hf) 0%nat)
      as (Qi & Qp & Qs); cbn [fst].
  - destruct (product_id p) as [id|].
    + destruct (truthy (next_product_token p)); cbn [negb].
      * match goal with |- context [as_completed rt ?fs ?s1] =>
          destruct (as_completed_flight rt fs s1) as (Hi & Hp & Hs);
          destruct (as_completed rt fs s1) as [s' evs'] end.
        cbn [snd length map] in *.
        rewrite in_flight_app, peak_app, submitted_app, Qi, Qp, Qs.
        cbn [app in_flight fold_left in_flight_after peak_in_flight].
        fold (in_flight 1 evs'). rewrite Hi, Hp.
        unfold submitted in *. cbn [List.filter is_submit length].
        rewrite Hs. repeat split; lia.
      * cbn [snd]. rewrite in_flight_app, peak_app, submitted_app, Qi, Qp, Qs.
        cbn. repeat split; lia.
    + cbn [snd]. rewrite in_flight_app, peak_app, submitted_app, Qi, Qp, Qs.
      cbn. repeat split; lia.
  - cbn [snd]. rewrite in_flight_app, peak_app, submitted_app, Qi, Qp, Qs.
    cbn. repeat split; lia.
Qed.

Lemma loop_flight fuel : forall s,
  in_flight 0 (snd (loop rt fuel s)) = 0%nat
  /\ (peak_in_flight 0 (snd (loop rt fuel s)) <= 1)%nat.
Proof.
  induction fuel as [|fuel IH]; intros s; [cbn; split; lia|].
  cbn [loop]. destruct (iteration_flight s) as (Hi & Hp & _).
  destruct (iteration rt s) as [[c s1] evs]. cbn [snd] in *.
  destruct c as [|b]; [|split; assumption].
  destruct (IH s1) as (Hi' & Hp').
  destruct (loop rt fuel s1) as [[c' s'] evs']. cbn [after snd] in *.
  rewrite in_flight_app, peak_app, Hi. split; [exact Hi'|lia].
Qed.

End OneFuture.

(** C8. The parallel traversal is a sequential traversal of the token
    chain.  Every run of its loop, ended or not, is a run of the
    sequential loop, with the same list, token and world and, the
    executor's bookkeeping apart, the same requests, sleeps and printed
    lines; and when the sequential loop leaves, the parallel one leaves
    within the same number of turns with the same result.  A turn submits
    one future exactly when the page just fetched carries its [product_id]
    and a token, at no moment is more than one future in flight, and none
    is in flight between turns: of the [MAX_WORKERS] = 5 workers at most
    one ever works. *)
Theorem parallel_is_sequential {W : Type} (rt : runtime W) :
  (forall fuel (s : state W),
      exists fuel',
        (fuel' <= 2 * fuel)%nat
        /\ sequential_loop rt fuel' s
           = (option_map (fun _ => DirectExit) (fst (fst (loop rt fuel s))),
              snd (fst (loop rt fuel s)),
              erase (snd (loop rt fuel s))))
  /\ (forall fuel (s : state W) b s' evs,
        sequential_loop rt fuel s = (Some b, s', evs) ->
        exists b' evs',
          loop rt fuel s = (Some b', s', evs') /\ erase evs' = evs)
  /\ (forall s : state W,
        submitted (snd (iteration rt s))
        = match fst (fst (fetch_product rt (token s) (world s))) with
          | inl p =>
              match product_id p with
              | Some _ =>
                  if truthy (next_product_token p) then 1%nat else 0%nat
              | None => 0%nat
              end
          | inr _ => 0%nat
          end)
  /\ (forall fuel (s : state W),
        in_flight 0 (snd (loop rt fuel s)) = 0%nat
        /\ (peak_in_flight 0 (snd (loop rt fuel s)) <= 1)%nat)
  /\ (1 < MAX_WORKERS)%nat.
Proof.
  split; [|split; [|split; [|split]]].
  - intros fuel s.
    destruct (loop_simulated rt fuel s) as (fuel' & Hle & _ & Hseq).
    exists fuel'. split; assumption.
  - intros fuel s b s' evs Hs.
    destruct (loop_simulated rt fuel s) as (fuel' & _ & Hnone & Hseq).
    destruct (loop rt fuel s) as [[c s2] evs2]. cbn [fst snd] in *.
    destruct c as [b'|].
    + cbn [option_map] in Hseq.
      pose proof (sequential_loop_mono rt _ _ _ _ _ (Nat.max fuel fuel') Hs
                    (Nat.le_max_l _ _)) as H1.
      pose proof (sequential_loop_mono rt _ _ _ _ _ (Nat.max fuel fuel') Hseq
                    (Nat.le_max_r _ _)) as H2.
      rewrite H1 in H2. injection H2 as _ -> ->.
      exists b', evs2. split; reflexivity.
    + specialize (Hnone eq_refl). cbn [option_map] in Hseq.
      rewrite (sequential_loop_mono rt _ _ _ _ _ fuel' Hs Hnone) in Hseq.
      discriminate.
  - intros s. apply iteration_flight.
  - intros fuel s. apply loop_flight.
  - unfold MAX_WORKERS. lia.
Qed.

Lemma parallel_is_sequential_witness :
  exists b' evs',
    loop three_page_server 3 (initial tt)
    = (Some b', {| products := three_pages; token := None; world := tt |},
       evs')
    /\ erase evs'
       = [Get BASE_URL; Print (Added 1 1);
          Get (token_url "B"); Print (Added 2 2);
          Get (token_url "C"); Print (Added 3 3); Print AllFetched].
Proof.
  apply (proj1 (proj2 (parallel_is_sequential three_page_server))
           3%nat (initial tt) DirectExit).
  vm_compute. reflexivity.
Defined.

(** ** Runs on concrete servers *)

(** A chain of two pages leaves through the exit of line 100, in one turn. *)
Example two_pages_exit :
  fst (loop same_id_server 1 (initial tt))
  = (Some FutureExit,
     {| products := [page 7 (Some "B"); page 7 None];
        token := None; world := tt |}).
Proof. vm_compute. reflexivity. Qed.

(** Three pages none -> B -> C where the page of B is answered 503 once:
    the three pages are collected, and B is requested twice. *)
Example busy_once :
  loop script_server 2
    (initial [Response 200 (Json (page 1 (Some "B")));
              Response 503 (JSONDecodeError true);
              Response 200 (Json (page 2 (Some "C")));
              Response 200 (Json (page 3 None))])
  = (Some DirectExit,
     {| products := three_pages; token := None; world := [] |},
     [Get BASE_URL; Print (Added 1 1); Submit (Some "B");
      Get (token_url "B"); Sleep 1; Get (token_url "B"); Done (Some "B");
      Print (Added 2 2);
      Get (token_url "C"); Print (Added 3 3); Print AllFetched]).
Proof. vm_compute. reflexivity. Qed.

(** Page 2 answered 400 once and then served: both pages are collected. *)
Example page2_400_once :
  fetch_all_products_parallel script_server 1
    [Response 200 (Json (page 1 (Some "B")));
     Response 400 (JSONDecodeError true);
     Response 200 (Json (page 2 None))]
  = Some [page 1 (Some "B"); page 2 None].
Proof. vm_compute. reflexivity. Qed.

(** The report on a list with a Fashion record of price 10. *)
Example report_ex :
  exists r,
    analyze_products exact_arithmetic three_pages = inl r
    /\ report_fashion (fashion_of r) = MostExpensive 1 "item" 10.
Proof. eexists. split; [vm_compute; reflexivity|reflexivity]. Qed.

(** A first page without [product_id]: it is appended, the [KeyError] is
    caught, and the same token is asked for again; the page served next is
    appended after it. *)
Example unidentified_first_page :
  loop script_server 2 (initial unidentified_then_page)
  = (Some DirectExit,
     {| products := [unidentified (Some "B"); page 1 None];
        token := None; world := [] |},
     [Get BASE_URL; Print (ErrorOccurred (MissingKey "product_id"));
      Get BASE_URL; Print (Added 1 2); Print AllFetched]).
Proof. vm_compute. reflexivity. Qed.

(** The analysis of a list whose dearest Fashion product lacks
    [product_id] raises [KeyError]. *)
Example analyze_unidentified :
  analyze_products exact_arithmetic [unidentified None]
  = inr (MissingKey "product_id").
Proof. reflexivity. Qed.

(** * Further properties *)

(** ** [fetch_product]: the shape of every call *)

Lemma backoff_trace_gets url n : forall d,
  length (List.filter is_get (backoff_trace url d n)) = n.
Proof.
  induction n as [|n IH]; intros d; [reflexivity|].
  rewrite backoff_trace_S. cbn. rewrite IH. reflexivity.
Qed.

Section FetchShape.
Context {W : Type} (rt : runtime W).

(** However the answers fall, the loop of [n] attempts is some [k] failed
    attempts with their sleeps, followed either by nothing, when all [n]
    are used, or by the one request that ended it. *)
Lemma attempts_shape n : forall url d w,
  exists k,
    (fst (fst (attempts rt n url d w)) = Exhausted /\ k = n
     /\ snd (attempts rt n url d w) = backoff_trace url d k)
    \/ ((k < n)%nat
        /\ ((exists p, fst (fst (attempts rt n url d w)) = Returned p)
            \/ fst (fst (attempts rt n url d w)) = Raised ValueError)
        /\ snd (attempts rt n url d w) = backoff_trace url d k ++ [Get url]).
Proof.
  induction n as [|n IH]; intros url d w.
  { exists 0%nat. left. repeat split. }
  assert (Hb : forall w1,
             exists k,
               (fst (fst (after [Get url; Sleep d]
                            (attempts rt n url (d * 2) (time_sleep rt w1 d))))
                = Exhausted /\ k = S n
                /\ snd (after [Get url; Sleep d]
                          (attempts rt n url (d * 2) (time_sleep rt w1 d)))
                   = backoff_trace url d k)
               \/ ((k < S n)%nat
                   /\ ((exists p,
                           fst (fst (after [Get url; Sleep d]
                                       (attempts rt n url (d * 2)
                                          (time_sleep rt w1 d))))
                           = Returned p)
                       \/ fst (fst (after [Get url; Sleep d]
                                      (attempts rt n url (d * 2)
                                         (time_sleep rt w1 d))))
                          = Raised ValueError)
                   /\ snd (after [Get url; Sleep d]
                             (attempts rt n url (d * 2) (time_sleep rt w1 d)))
                      = backoff_trace url d k ++ [Get url])).
  { intros w1. destruct (IH url (d * 2) (time_sleep rt w1 d)) as [k Hk].
    destruct (attempts rt n url (d * 2) (time_sleep rt w1 d)) as [[r w2] evs].
    cbn [after fst snd] in *. exists (S k). rewrite backoff_trace_S.
    destruct Hk as [(Hr & -> & ->)|(Hlt & Hr & ->)].
    - left. repeat split. exact Hr.
    - right. repeat split; [lia|exact Hr]. }
  cbn [attempts]. destruct (requests_get rt w url) as [o w1].
  destruct o as [|st json]; [apply Hb|].
  destruct (st =? 503); [apply Hb|].
  destruct (raises_for_status st); [apply Hb|].
  destruct json as [p|[|]]; [|apply Hb|];
    (exists 0%nat; right; split; [lia|]; split; [|reflexivity]; cbn; eauto).
Qed.

End FetchShape.

(** X1. Every call of [fetch_product], whatever the server answers, makes
    at most [RETRY_LIMIT] requests, all to the URL of the token: its trace
    is [k] failed attempts, each followed by its sleep of 1, 2, 4, ...
    seconds, and then either the one request that ended the call, with
    [k < RETRY_LIMIT], or, with [k = RETRY_LIMIT], nothing more, in which
    case the call raises the exception that names the token. *)
Theorem fetch_product_shape {W : Type} (rt : runtime W)
  (tok : option string) (w : W) :
  (length (List.filter is_get (snd (fetch_product rt tok w))) <= RETRY_LIMIT)%nat
  /\ exists k,
       (k = RETRY_LIMIT
        /\ fst (fst (fetch_product rt tok w))
           = inr (Exception (failure_message tok))
        /\ snd (fetch_product rt tok w)
           = backoff_trace (request_url rt tok) INITIAL_RETRY_DELAY k)
       \/ ((k < RETRY_LIMIT)%nat
           /\ ((exists p, fst (fst (fetch_product rt tok w)) = inl p)
               \/ fst (fst (fetch_product rt tok w)) = inr ValueError)
           /\ snd (fetch_product rt tok w)
              = backoff_trace (request_url rt tok) INITIAL_RETRY_DELAY k
                  ++ [Get (request_url rt tok)]).
Proof.
  destruct (attempts_shape rt RETRY_LIMIT (request_url rt tok)
              INITIAL_RETRY_DELAY w) as [k Hk].
  unfold fetch_product.
  destruct (attempts rt RETRY_LIMIT (request_url rt tok)
              INITIAL_RETRY_DELAY w) as [[r w'] evs].
  cbn [fst snd] in *.
  destruct Hk as [(-> & -> & ->)|(Hlt & Hr & ->)].
  - split; [rewrite backoff_trace_gets; lia|].
    exists RETRY_LIMIT. left. repeat split.
  - split.
    + rewrite List.filter_app, length_app, backoff_trace_gets. cbn. lia.
    + exists k. right. split; [exact Hlt|]. split; [|reflexivity].
      destruct Hr as [[p ->]| ->]; cbn; eauto.
Qed.

Section Recovery.
Context {W : Type} (rt : runtime W).

Lemma attempts_recover fails : forall n url d w st p w_end,
  answers rt w url d fails (Response st (Json p)) w_end ->
  Forall (fun o => caught o = true) fails ->
  (length fails < n)%nat ->
  st <> 503 ->
  raises_for_status st = false ->
  attempts rt n url d w
  = (Returned p, w_end, backoff_trace url d (length fails) ++ [Get url]).
Proof.
  induction fails as [|o fails IH];
    intros n url d w st p w_end Hans Hcaught Hlen Hst Hok.
  - destruct n as [|n]; [cbn in Hlen; lia|].
    cbn [answers] in Hans. cbn [attempts]. rewrite Hans.
    apply Z.eqb_neq in Hst. rewrite Hst, Hok. reflexivity.
  - destruct n as [|n]; [cbn in Hlen; lia|].
    destruct Hans as (w1 & Hget & Hrest).
    rewrite (attempts_backoff rt n url d w o w1 Hget (Forall_inv Hcaught)).
    rewrite (IH n url (d * 2) (time_sleep rt w1 d) st p w_end Hrest
               (Forall_inv_tail Hcaught)) by (cbn in Hlen; lia || assumption);
      try assumption.
    cbn [after length]. rewrite backoff_trace_S. reflexivity.
Qed.

End Recovery.

(** X2. A fetch recovers from failures that stay within the budget: when
    the first [k < RETRY_LIMIT] answers are failures the loop catches (a
    network fault, 503, any status from 400 to 599) and the next answer is
    a page with a good status, [fetch_product] returns that page after
    [k + 1] requests, having slept 1, 2, 4, ... seconds after each of the
    [k] failures, and it asks the server nothing more. *)
Theorem retry_recovers {W : Type} (rt : runtime W) (tok : option string)
  (w w_end : W) (fails : list get_outcome) (st : Z) (p : product) :
  answers rt w (request_url rt tok) INITIAL_RETRY_DELAY fails
    (Response st (Json p)) w_end ->
  Forall (fun o => caught o = true) fails ->
  (length fails < RETRY_LIMIT)%nat ->
  st <> 503 ->
  raises_for_status st = false ->
  fetch_product rt tok w
  = (inl p, w_end,
     backoff_trace (request_url rt tok) INITIAL_RETRY_DELAY (length fails)
       ++ [Get (request_url rt tok)]).
Proof.
  intros Hans Hcaught Hlen Hst Hok. unfold fetch_product.
  rewrite (attempts_recover rt fails RETRY_LIMIT _ _ _ st p w_end
             Hans Hcaught Hlen Hst Hok).
  reflexivity.
Qed.

Lemma retry_recovers_witness :
  fetch_product script_server (Some "B") busy_once_script
  = (inl (page 2 (Some "C")), [],
     [Get (token_url "B"); Sleep 1; Get (token_url "B")]).
Proof.
  apply (retry_recovers script_server (Some "B") busy_once_script []
           [Response 503 (JSONDecodeError true)] 200 (page 2 (Some "C"))).
  - eexists. split; reflexivity.
  - repeat constructor.
  - cbn. unfold RETRY_LIMIT. lia.
  - discriminate.
  - reflexivity.
Defined.

(** ** The traversal: a token that cannot be fetched *)

Section Stuck.
Context {W : Type} (rt : runtime W).

Lemma loop_stuck fuel : forall s,
  (forall w, fetch_fails rt (token s) w = true) ->
  fst (fst (loop rt fuel s)) = None
  /\ products (snd (fst (loop rt fuel s))) = products s
  /\ token (snd (fst (loop rt fuel s))) = token s.
Proof.
  induction fuel as [|fuel IH]; intros s Hfail; [repeat split|].
  cbn [loop]. unfold iteration.
  pose proof (Hfail (world s)) as Hf. unfold fetch_fails in Hf.
  destruct (fetch_product rt (token s) (world s)) as [[[p|e] w1] evs];
    [discriminate|].
  match goal with |- context [loop rt fuel ?s1] =>
    destruct (IH s1 Hfail) as (Hc & Hp & Ht);
    destruct (loop rt fuel s1) as [[c s'] evs'] end.
  cbn [after fst snd products token] in *. repeat split; assumption.
Qed.

End Stuck.

(** X3. A token whose fetch fails in whatever state the server is keeps
    the traversal in its loop for ever: after any number of turns the loop
    has not left, and the list and the current token are what they were. *)
Theorem failing_token_loops {W : Type} (rt : runtime W) (s : state W) :
  (forall w, fetch_fails rt (token s) w = true) ->
  forall fuel,
    fst (fst (loop rt fuel s)) = None
    /\ products (snd (fst (loop rt fuel s))) = products s
    /\ token (snd (fst (loop rt fuel s))) = token s.
Proof. intros Hfail fuel. apply loop_stuck. exact Hfail. Qed.

Lemma failing_token_loops_witness :
  fst (fst (loop page2_400_server 7 stuck_at_B)) = None
  /\ products (snd (fst (loop page2_400_server 7 stuck_at_B)))
     = [page 1 (Some "B")]
  /\ token (snd (fst (loop page2_400_server 7 stuck_at_B))) = Some "B".
Proof.
  apply (failing_token_loops page2_400_server stuck_at_B).
  intros []. vm_compute. reflexivity.
Defined.

(** ** The traversal: what the list is when the loop leaves *)

Lemma chain_of_front front : forall last,
  Forall (fun p => truthy (next_product_token p) = true) front ->
  truthy (next_product_token last) = false ->
  is_chain (front ++ [last]) = true.
Proof.
  induction front as [|p front IH]; intros last Hfront Hlast.
  - cbn. rewrite Hlast. reflexivity.
  - pose proof (IH last (Forall_inv_tail Hfront) Hlast) as Hrest.
    pose proof (Forall_inv Hfront) as Hp. cbn [app].
    destruct (front ++ [last]) as [|q rest] eqn:E; [discriminate|].
    change (truthy (next_product_token p) && is_chain (q :: rest) = true).
    rewrite Hp, Hrest. reflexivity.
Qed.

Lemma tracks_append {W : Type} (s : state W) (p : product) (w : W) :
  tracks s ->
  truthy (next_product_token p) = true ->
  tracks {| products := products s ++ [p];
            token := next_product_token p; world := w |}.
Proof.
  intros [Hall _] Hp. split; cbn [products token].
  - apply Forall_app. split; [exact Hall|]. constructor; [exact Hp|constructor].
  - rewrite List.map_app. cbn [map]. rewrite last_last. reflexivity.
Qed.

Section Tracking.
Context {W : Type} (rt : runtime W).

(** A turn keeps the token on the last page as long as the pages carry
    their [product_id]; when it leaves the loop, the list is a chain. *)
Lemma iteration_tracks s :
  (identified (products s) -> tracks s) ->
  identified (products (snd (fst (iteration rt s)))) ->
  match fst (fst (iteration rt s)) with
  | Continue => tracks (snd (fst (iteration rt s)))
  | Break _ =>
      is_chain (products (snd (fst (iteration rt s)))) = true
      /\ truthy (token (snd (fst (iteration rt s)))) = false
  end.
Proof.
  intros Hinv. unfold iteration, list_append.
  destruct (fetch_product rt (token s) (world s)) as [[[p|e] w1] evs].
  - destruct (product_id p) as [idp|] eqn:Hidp.
    + destruct (truthy (next_product_token p)) eqn:Hp; cbn [negb].
      * cbn [as_completed world products token]. unfold list_append.
        destruct (fetch_product rt (next_product_token p) w1)
          as [[[q|e] w2] evs2].
        -- destruct (product_id q) as [idq|] eqn:Hidq.
           ++ destruct (truthy (next_product_token q)) eqn:Hq;
                cbn [negb drain token fst snd]; rewrite Hq;
                cbn [negb fst snd products]; intros Hids;
                apply Forall_app in Hids as [Hids _];
                apply Forall_app in Hids as [Hids _];
                pose proof (tracks_append s p w1 (Hinv Hids) Hp) as Hs1.
              ** exact (tracks_append _ q w2 Hs1 Hq).
              ** cbn [products token]. split; [|assumption || reflexivity].
                 apply chain_of_front; [exact (proj1 Hs1)|exact Hq].
           ++ cbn [fst snd token]. rewrite Hp. cbn [negb fst snd products].
              intros Hids. apply Forall_app in Hids as [_ Hq].
              exfalso. exact (Forall_inv Hq Hidq).
        -- cbn [fst snd token]. rewrite Hp. cbn [negb fst snd products].
           intros Hids. apply Forall_app in Hids as [Hids _].
           exact (tracks_append s p w2 (Hinv Hids) Hp).
      * cbn [fst snd products token]. intros Hids.
        apply Forall_app in Hids as [Hids _].
        split; [|assumption || reflexivity].
        apply chain_of_front; [exact (proj1 (Hinv Hids))|exact Hp].
    + cbn [fst snd products]. intros Hids.
      apply Forall_app in Hids as [_ Hq].
      exfalso. exact (Forall_inv Hq Hidp).
  - cbn [fst snd products]. intros Hids.
    destruct (Hinv Hids) as [H1 H2]. split; assumption.
Qed.

(** When a turn leaves the loop, the page appended last carries its
    [product_id] and no token. *)
Lemma iteration_exit s :
  match fst (fst (iteration rt s)) with
  | Continue => True
  | Break _ =>
      exists front last,
        products (snd (fst (iteration rt s))) = front ++ [last]
        /\ truthy (next_product_token last) = false
        /\ product_id last <> None
  end.
Proof.
  unfold iteration, list_append.
  destruct (fetch_product rt (token s) (world s)) as [[[p|e] w1] evs];
    [|exact I].
  destruct (product_id p) as [idp|] eqn:Hidp; [|exact I].
  destruct (truthy (next_product_token p)) eqn:Hp; cbn [negb].
  - cbn [as_completed world products token]. unfold list_append.
    destruct (fetch_product rt (next_product_token p) w1)
      as [[[q|e] w2] evs2].
    + destruct (product_id q) as [idq|] eqn:Hidq.
      * destruct (truthy (next_product_token q)) eqn:Hq;
          cbn [negb drain token fst snd]; rewrite Hq; cbn [negb fst snd];
          [exact I|].
        cbn [products]. exists (products s ++ [p]), q.
        repeat split; [exact Hq|congruence].
      * cbn [fst snd token]. rewrite Hp. exact I.
    + cbn [fst snd token]. rewrite Hp. exact I.
  - cbn [fst snd products]. exists (products s), p.
    repeat split; [exact Hp|congruence].
Qed.

Lemma loop_tracks fuel : forall s,
  (identified (products s) -> tracks s) ->
  identified (products (snd (fst (loop rt fuel s)))) ->
  match fst (fst (loop rt fuel s)) with
  | None => tracks (snd (fst (loop rt fuel s)))
  | Some _ =>
      is_chain (products (snd (fst (loop rt fuel s)))) = true
      /\ truthy (token (snd (fst (loop rt fuel s)))) = false
  end.
Proof.
  induction fuel as [|fuel IH]; intros s Hinv; [exact Hinv|].
  cbn [loop]. pose proof (iteration_tracks s Hinv) as Hit.
  destruct (iteration rt s) as [[c s1] evs]. cbn [fst snd] in Hit.
  destruct c as [|b]; [|exact Hit].
  specialize (IH s1).
  destruct (loop_grows rt fuel s1) as (more & Hm & _).
  destruct (loop rt fuel s1) as [[c' s'] evs']. cbn [after fst snd] in *.
  intros Hids. apply IH; [|exact Hids].
  intros _. apply Hit. rewrite Hm in Hids.
  apply Forall_app in Hids as [Hids _]. exact Hids.
Qed.

Lemma loop_exit fuel : forall s,
  match fst (fst (loop rt fuel s)) with
  | None => True
  | Some _ =>
      exists front last,
        products (snd (fst (loop rt fuel s))) = front ++ [last]
        /\ truthy (next_product_token last) = false
        /\ product_id last <> None
  end.
Proof.
  induction fuel as [|fuel IH]; intros s; [exact I|].
  cbn [loop]. pose proof (iteration_exit s) as Hit.
  destruct (iteration rt s) as [[c s1] evs]. cbn [fst snd] in Hit.
  destruct c as [|b]; [|exact Hit].
  specialize (IH s1).
  destruct (loop rt fuel s1) as [[c' s'] evs']. exact IH.
Qed.

End Tracking.

(** X4. Whenever the traversal returns, the list it returns is not empty
    and its last page carries its [product_id] and no token; and if every
    page of the list carries its [product_id], the list is a token chain:
    every page but the last carries a token.  While the loop is still
    turning, and as long as every page collected carries its [product_id],
    every page collected carries a token and the current token is the one
    of the last page collected. *)
Theorem returned_list_is_chain {W : Type} (rt : runtime W) (fuel : nat) (w : W) :
  match fetch_all_products_parallel rt fuel w with
  | Some ps =>
      (exists front last,
          ps = front ++ [last]
          /\ truthy (next_product_token last) = false
          /\ product_id last <> None)
      /\ (identified ps -> is_chain ps = true)
  | None =>
      identified (products (snd (fst (loop rt fuel (initial w))))) ->
      tracks (snd (fst (loop rt fuel (initial w))))
  end.
Proof.
  assert (Hinit : identified (products (initial w)) -> tracks (initial w))
    by (intros _; split; [constructor|reflexivity]).
  pose proof (loop_tracks rt fuel (initial w) Hinit) as H.
  pose proof (loop_exit rt fuel (initial w)) as Hexit.
  unfold fetch_all_products_parallel.
  destruct (loop rt fuel (initial w)) as [[c s'] evs]. cbn [fst snd] in *.
  destruct c as [b|]; [|exact H].
  split; [exact Hexit|]. intros Hids. exact (proj1 (H Hids)).
Qed.

Lemma returned_list_is_chain_witness :
  is_chain three_pages = true.
Proof.
  pose proof (returned_list_is_chain three_page_server 2 tt) as H.
  vm_compute in H. apply (proj2 H).
  repeat constructor; discriminate.
Defined.

(** ** The traversal: which URLs it asks for *)

Lemma allowed_mono {W : Type} (rt : runtime W) tok ps ps' e :
  (forall p, In p ps -> In p ps') ->
  allowed rt tok ps e -> allowed rt tok ps' e.
Proof.
  intros Hsub. destruct e; cbn; try exact (fun H => H).
  intros [H|(p & Hp & H)]; [now left|]. right. exists p. split; auto.
Qed.

Section Urls.
Context {W : Type} (rt : runtime W).

Lemma fetch_allowed tok tok' ps w :
  (request_url rt tok = request_url rt tok'
   \/ exists p, In p ps /\ request_url rt tok = request_url rt (next_product_token p)) ->
  Forall (allowed rt tok' ps) (snd (fetch_product rt tok w)).
Proof.
  intros H. eapply List.Forall_impl; [|apply fetch_product_events].
  intros e [->|[d ->]]; cbn; [|exact I].
  destruct H as [H|(p & Hp & H)]; [now left|]. right. exists p. auto.
Qed.

(** The requests of a turn go to the URL of the current token or to that
    of the token of a page the turn has appended; and the token the turn
    leaves is the one it found or that of a page of the list. *)
Lemma iteration_urls s :
  Forall (allowed rt (token s) (products (snd (fst (iteration rt s)))))
    (snd (iteration rt s))
  /\ (token (snd (fst (iteration rt s))) = token s
      \/ exists p, In p (products (snd (fst (iteration rt s))))
                   /\ token (snd (fst (iteration rt s)))
                      = next_product_token p).
Proof.
  unfold iteration, list_append.
  pose proof (fun ps => fetch_allowed (token s) (token s) ps (world s)
                          (or_introl eq_refl)) as H1.
  destruct (fetch_product rt (token s) (world s)) as [[[p|e] w1] evs].
  - cbn [snd] in H1. destruct (product_id p) as [idp|].
    + destruct (truthy (next_product_token p)) eqn:Hp; cbn [negb].
      * cbn [as_completed world products token]. unfold list_append.
        assert (H2 : forall ps, In p ps ->
                   Forall (allowed rt (token s) ps)
                     (snd (fetch_product rt (next_product_token p) w1))).
        { intros ps Hin. apply fetch_allowed. right. exists p. auto. }
        destruct (fetch_product rt (next_product_token p) w1)
          as [[[q|e] w2] evs2]; cbn [snd] in H2.
        -- destruct (product_id q) as [idq|].
           ++ destruct (truthy (next_product_token q));
                cbn [negb drain as_completed fst snd products token];
                (split;
                 [repeat (apply Forall_app; split); try apply H1;
                  try (apply H2; apply in_or_app; left; apply in_or_app;
                       right; now left);
                  repeat constructor
                 |right; exists q; split;
                  [apply in_or_app; right; now left|reflexivity]]).
           ++ cbn [as_completed fst snd products token]. split.
              ** repeat (apply Forall_app; split); try apply H1;
                   try (apply H2; apply in_or_app; left; apply in_or_app;
                        right; now left);
                   repeat constructor.
              ** right. exists p. split; [|reflexivity].
                 apply in_or_app. left. apply in_or_app. right. now left.
        -- cbn [fst snd products token]. split.
           ++ repeat (apply Forall_app; split); try apply H1;
                try (apply H2; apply in_or_app; right; now left);
                repeat constructor.
           ++ right. exists p. split; [|reflexivity].
              apply in_or_app. right. now left.
      * cbn [fst snd products token]. split.
        -- repeat (apply Forall_app; split); try apply H1;
             repeat constructor.
        -- right. exists p. split; [|reflexivity].
           apply in_or_app. right. now left.
    + cbn [fst snd products token]. split; [|now left].
      repeat (apply Forall_app; split); try apply H1; repeat constructor.
  - cbn [fst snd products token] in *. split; [|now left].
    repeat (apply Forall_app; split); try apply H1; repeat constructor.
Qed.

Lemma loop_urls fuel : forall s,
  Forall (allowed rt (token s) (products (snd (fst (loop rt fuel s)))))
    (snd (loop rt fuel s)).
Proof.
  induction fuel as [|fuel IH]; intros s; [constructor|].
  cbn [loop]. destruct (iteration_urls s) as [Hit Htok].
  destruct (iteration rt s) as [[c s1] evs]. cbn [fst snd] in *.
  destruct c as [|b]; [|exact Hit].
  specialize (IH s1).
  destruct (loop_grows rt fuel s1) as (more' & Hm' & _).
  destruct (loop rt fuel s1) as [[c' s'] evs']. cbn [after fst snd] in *.
  assert (Hsub : forall p, In p (products s1) -> In p (products s')).
  { intros p Hp. rewrite Hm'. apply in_or_app. now left. }
  apply Forall_app. split.
  - eapply List.Forall_impl; [|exact Hit].
    intros e. apply allowed_mono. exact Hsub.
  - eapply List.Forall_impl; [|exact IH].
    intros e He. destruct e; cbn in *; try exact I.
    destruct He as [He|He]; [|now right].
    destruct Htok as [Htok|(p & Hp & Hp')].
    + left. rewrite He, Htok. reflexivity.
    + right. exists p. split; [apply Hsub; exact Hp|].
      rewrite He, Hp'. reflexivity.
Qed.

End Urls.

(** X5. The traversal never asks for a URL it was not led to: every
    request of a run, ended or not, goes to the base URL or to the URL of
    the token that one of the pages collected in that run carries. *)
Theorem only_revealed_tokens {W : Type} (rt : runtime W) (fuel : nat) (w : W) :
  Forall (fun e =>
            match e with
            | Get u =>
                u = BASE_URL
                \/ exists p,
                     In p (products (snd (fst (loop rt fuel (initial w)))))
                     /\ u = request_url rt (next_product_token p)
            | _ => True
            end)
    (snd (loop rt fuel (initial w))).
Proof. exact (loop_urls rt fuel (initial w)). Qed.

(** ** [analyze_products]: the counts, the maximum and the mean *)

Lemma count_category_cons c p ps :
  count_category c (p :: ps)
  = ((if String.eqb (category p) c then 1 else 0) + count_category c ps)%nat.
Proof.
  unfold count_category. cbn [List.filter].
  destruct (String.eqb (category p) c); reflexivity.
Qed.

Lemma category_counts_loop ar ps : forall (t t' : tally) (c : string),
  analyze_loop ar ps t = inl t' ->
  category_counts t' !! c
  = if Nat.eqb (count_category c ps) 0 then category_counts t !! c
    else Some (default 0%nat (category_counts t !! c) + count_category c ps)%nat.
Proof.
  induction ps as [|p ps IH]; intros t t' c; cbn [analyze_loop].
  - intros H. injection H as <-. reflexivity.
  - destruct (analyze_step ar t p) as [t1|e] eqn:E; [|discriminate].
    intros H. rewrite (IH _ _ c H), count_category_cons.
    destruct (analyze_step_inl ar _ _ _ E) as (-> & _).
    destruct (String.eqb (category p) c) eqn:Ec.
    + apply String.eqb_eq in Ec. subst c. rewrite lookup_insert_eq.
      cbn [default]. destruct (count_category (category p) ps) as [|n]; cbn.
      * f_equal. unfold id. lia.
      * f_equal. unfold id. lia.
    + apply String.eqb_neq in Ec. rewrite lookup_insert_ne by exact Ec.
      reflexivity.
Qed.

(** X6. The count [analyze_products] returns for a category is the number
    of products of that category in the list, and a category with no
    product has no entry in the dict at all (the [defaultdict] creates
    entries only for the categories it meets).  The function returns
    whenever the pages carry their [product_id]. *)
Theorem category_counts_correct (ar : arithmetic) (ps : list product)
  (c : string) :
  (identified ps -> exists r, analyze_products ar ps = inl r)
  /\ (forall r, analyze_products ar ps = inl r ->
        counts_of r !! c
        = if Nat.eqb (count_category c ps) 0 then None
          else Some (count_category c ps)).
Proof.
  split; [apply analyze_products_total|].
  intros r Hr. destruct (analyze_products_inl ar ps r Hr) as (t & Ht & ->).
  unfold counts_of. cbn [fst snd].
  rewrite (category_counts_loop ar ps _ _ c Ht).
  cbn [initial_tally category_counts]. rewrite lookup_empty. reflexivity.
Qed.

Lemma category_counts_correct_witness :
  exists r,
    analyze_products exact_arithmetic [cheap_fashion; gadget] = inl r
    /\ counts_of r !! "Fashion" = Some 1%nat
    /\ counts_of r !! "Toys & Games" = None.
Proof.
  destruct (proj1 (category_counts_correct exact_arithmetic
                     [cheap_fashion; gadget] "Fashion")) as [r Hr].
  { repeat constructor; discriminate. }
  exists r. split; [exact Hr|]. split.
  - exact (proj2 (category_counts_correct exact_arithmetic
                    [cheap_fashion; gadget] "Fashion") r Hr).
  - exact (proj2 (category_counts_correct exact_arithmetic
                    [cheap_fashion; gadget] "Toys & Games") r Hr).
Defined.

(** What is returned for Fashion: a bound of the Fashion prices, and a
    selection among the products of the list. *)
Lemma fashion_is_maximum_aux (ar : arithmetic) (ps : list product) r :
  analyze_products ar ps = inl r ->
  (forall p, In p ps -> category p = "Fashion" ->
     (price p <= fashion_price (fashion_of r))%Q)
  /\ selection (fun q => In q ps) (fashion_of r).
Proof.
  intros Hr. destruct (analyze_products_inl ar ps r Hr) as (t & Ht & ->).
  unfold fashion_of. cbn [fst snd].
  destruct (fashion_loop ar ps _ _ Ht)
    as [[Hsame Hall]|(before & q & after & id & -> & Hc & Hid & Hd & Hfloor
                      & Hbefore & Hafter)].
  - rewrite Hsame. split; [exact Hall|now left].
  - rewrite Hd. cbn [fashion_price]. split.
    + intros p Hp Hcp. apply in_app_or in Hp as [Hp|[<-|Hp]].
      * apply Qlt_le_weak. exact (Hbefore p Hp Hcp).
      * apply Qle_refl.
      * exact (Hafter p Hp Hcp).
    + right. exists q, id. repeat split; auto.
      apply in_or_app. right. now left.
Qed.

(** X7. The record [analyze_products] returns for Fashion is a maximum:
    its price is at least the price of every Fashion product of the list;
    and it is either the sentinel of price -1 or the identifier, name and
    price of a Fashion product of the list whose price is above -1.  The
    function returns whenever the pages carry their [product_id]. *)
Theorem fashion_is_maximum (ar : arithmetic) (ps : list product) :
  (identified ps -> exists r, analyze_products ar ps = inl r)
  /\ (forall r, analyze_products ar ps = inl r ->
        (forall p, In p ps -> category p = "Fashion" ->
           (price p <= fashion_price (fashion_of r))%Q)
        /\ selection (fun q => In q ps) (fashion_of r)).
Proof.
  split; [apply analyze_products_total|].
  intros r Hr. exact (fashion_is_maximum_aux ar ps r Hr).
Qed.

Lemma fashion_is_maximum_witness :
  exists r,
    analyze_products exact_arithmetic three_pages = inl r
    /\ (price (page 2 (Some "C")) <= fashion_price (fashion_of r))%Q.
Proof.
  destruct (proj1 (fashion_is_maximum exact_arithmetic three_pages))
    as [r Hr].
  { repeat constructor; discriminate. }
  exists r. split; [exact Hr|].
  apply (proj1 (proj2 (fashion_is_maximum exact_arithmetic three_pages) r Hr)
           (page 2 (Some "C"))).
  - right. left. reflexivity.
  - reflexivity.
Defined.

(** X8. When the list holds at least one 'Toys & Games' product, the
    average [analyze_products] returns is Python's quotient, by the number
    of those products, of the sum of their prices as Python adds them in
    list order from 0. *)
Theorem toys_average (ar : arithmetic) (ps : list product) :
  toys_games ps <> [] ->
  (identified ps -> exists r, analyze_products ar ps = inl r)
  /\ (forall r, analyze_products ar ps = inl r ->
        average_of r
        = py_truediv ar (total_price ar (toys_games ps))
            (length (toys_games ps))).
Proof.
  intros Hne. split; [apply analyze_products_total|].
  intros r Hr. destruct (analyze_products_inl ar ps r Hr) as (t & Ht & ->).
  unfold average_of. cbn [snd].
  destruct (toys_games_loop ar ps _ _ Ht) as [Hc Htot].
  rewrite Hc, Htot. cbn [initial_tally toys_games_count toys_games_total_price].
  fold (total_price ar (toys_games ps)).
  destruct (toys_games ps) as [|p l]; [contradiction|]. reflexivity.
Qed.

Lemma toys_average_witness :
  exists r,
    analyze_products exact_arithmetic [toy 1 10; gadget; toy 2 20] = inl r
    /\ average_of r
       = py_truediv exact_arithmetic
           (total_price exact_arithmetic [toy 1 10; toy 2 20]) 2.
Proof.
  assert (Hne : toys_games [toy 1 10; gadget; toy 2 20] <> [])
    by discriminate.
  destruct (proj1 (toys_average exact_arithmetic
                     [toy 1 10; gadget; toy 2 20] Hne)) as [r Hr].
  { repeat constructor; discriminate. }
  exists r. split; [exact Hr|].
  exact (proj2 (toys_average exact_arithmetic
                  [toy 1 10; gadget; toy 2 20] Hne) r Hr).
Defined.

(** X9. The Fashion line of the report never fails on a missing key: on
    the record [analyze_products] returns, [main] reaches the keys [id]
    and [name] only when they are there.  It prints that no Fashion product
    was found exactly when the price of that record is negative, which is
    the case of the sentinel but also of a list whose dearest Fashion
    product costs less than 0. *)
Theorem report_never_fails (ar : arithmetic) (ps : list product) :
  (identified ps -> exists r, analyze_products ar ps = inl r)
  /\ (forall r, analyze_products ar ps = inl r ->
        report_fashion (fashion_of r) <> KeyError
        /\ (report_fashion (fashion_of r) = NoProductsFound
            <-> (fashion_price (fashion_of r) < 0)%Q)
        /\ (forall id name pr,
              fashion_of r = Full id name pr ->
              (0 <= pr)%Q ->
              report_fashion (fashion_of r) = MostExpensive id name pr)).
Proof.
  split; [apply analyze_products_total|].
  intros r Hr.
  destruct (proj2 (fashion_is_maximum_aux ar ps r Hr))
    as [->|(q & id & _ & _ & _ & _ & ->)].
  - split; [discriminate|]. split; [|discriminate].
    split; [reflexivity|]. intros _. reflexivity.
  - unfold report_fashion. cbn [fashion_price].
    destruct (Qle_bool 0 (price q)) eqn:E.
    + apply Qle_bool_iff in E. split; [discriminate|]. split.
      * split; [discriminate|]. intros H. exfalso.
        exact (Qlt_not_le _ _ H E).
      * intros id' name pr H _. injection H as <- <- <-. reflexivity.
    + split; [discriminate|]. split.
      * split; [|reflexivity]. intros _. apply Qnot_le_lt. intros H.
        apply Qle_bool_iff in H. congruence.
      * intros id' name pr H Hpos. injection H as _ _ <-.
        apply Qle_bool_iff in Hpos. congruence.
Qed.

Lemma report_never_fails_witness :
  exists r,
    analyze_products exact_arithmetic [half_off; gadget] = inl r
    /\ report_fashion (fashion_of r) = NoProductsFound
    /\ fashion_of r = Full 9 "sock" (-1 # 2).
Proof.
  destruct (proj1 (report_never_fails exact_arithmetic [half_off; gadget]))
    as [r Hr].
  { repeat constructor; discriminate. }
  exists r. split; [exact Hr|].
  assert (Hf : fashion_of r = Full 9 "sock" (-1 # 2)).
  { vm_compute in Hr. injection Hr as <-. reflexivity. }
  split; [|exact Hf].
  apply (proj2 (proj1 (proj2 (proj2 (report_never_fails exact_arithmetic
                                        [half_off; gadget]) r Hr)))).
  rewrite Hf. reflexivity.
Defined.

(** ** [fetch_product]: a server that never answers well *)

Lemma backoff_trace_sleep url n : forall d,
  total_sleep (backoff_trace url d n) = d * (2 ^ Z.of_nat n - 1).
Proof.
  induction n as [|n IH]; intros d.
  - cbn. lia.
  - rewrite backoff_trace_S. cbn [total_sleep fold_right].
    fold (total_sleep (backoff_trace url (d * 2) n)). rewrite IH.
    rewrite Nat2Z.inj_succ, Z.pow_succ_r by lia. lia.
Qed.

(** X10. When every answer for a token is a failure the loop catches, a
    network fault, a 503, any status from 400 to 599 or a body that is not
    JSON, [fetch_product] gives up after [RETRY_LIMIT] requests and 31
    seconds of sleep (1 + 2 + 4 + 8 + 16), raising the exception that
    names the token. *)
Theorem persistent_failure {W : Type} (rt : runtime W)
  (tok : option string) (w : W) :
  (forall w', caught (fst (requests_get rt w' (request_url rt tok))) = true) ->
  fst (fst (fetch_product rt tok w)) = inr (Exception (failure_message tok))
  /\ length (List.filter is_get (snd (fetch_product rt tok w))) = RETRY_LIMIT
  /\ total_sleep (snd (fetch_product rt tok w)) = 31.
Proof.
  intros Hc.
  destruct (attempts_all_caught rt _ Hc RETRY_LIMIT INITIAL_RETRY_DELAY w)
    as [Hr Hev].
  unfold fetch_product.
  destruct (attempts rt RETRY_LIMIT _ _ w) as [[r w'] evs].
  cbn [fst snd] in *. subst.
  rewrite backoff_trace_gets, backoff_trace_sleep. repeat split.
Qed.

Lemma persistent_failure_witness :
  fst (fst (fetch_product page2_400_server (Some "B") tt))
  = inr (Exception (failure_message (Some "B")))
  /\ length (List.filter is_get
               (snd (fetch_product page2_400_server (Some "B") tt)))
     = RETRY_LIMIT
  /\ total_sleep (snd (fetch_product page2_400_server (Some "B") tt)) = 31.
Proof.
  apply (persistent_failure page2_400_server (Some "B") tt).
  intros []. reflexivity.
Defined.

(** ** The traversal: two pages a turn *)

Section Turns.
Context {W : Type} (rt : runtime W).

Lemma loop_too_short fuel : forall front last s,
  Forall (fun p => truthy (next_product_token p) = true) front ->
  identified (front ++ [last]) ->
  serves rt (world s) (token s) (front ++ [last]) ->
  (2 * fuel < length (front ++ [last]))%nat ->
  fst (fst (loop rt fuel s)) = None.
Proof.
  induction fuel as [|fuel IH];
    intros front last s Hfront Hids Hserves Hlen; [reflexivity|].
  destruct front as [|p [|q front]];
    [cbn in Hlen; lia|cbn in Hlen; lia|].
  destruct Hserves as (w1 & evs1 & Hf1 & w2 & evs2 & Hf2 & Hrest).
  pose proof (Forall_inv Hfront) as Hp.
  pose proof (Forall_inv (Forall_inv_tail Hfront)) as Hq.
  pose proof (Forall_inv_tail (Forall_inv_tail Hfront)) as Hfront'.
  destruct (product_id p) as [idp|] eqn:Hidp;
    [|exfalso; exact (Forall_inv Hids Hidp)].
  destruct (product_id q) as [idq|] eqn:Hidq;
    [|exfalso; exact (Forall_inv (Forall_inv_tail Hids) Hidq)].
  pose proof (Forall_inv_tail (Forall_inv_tail Hids)) as Hids'.
  cbn [loop]. unfold iteration, list_append. rewrite Hf1, Hidp, Hp.
  cbn [negb].
  cbn [as_completed world products token]. unfold list_append.
  rewrite Hf2, Hidq, Hq. cbn [negb token]. rewrite Hq. cbn [negb].
  match goal with |- context [loop rt fuel ?s2] =>
    pose proof (IH front last s2 Hfront' Hids' Hrest) as H;
    destruct (loop rt fuel s2) as [[c s'] evs] end.
  cbn [after fst snd] in *. apply H. cbn in Hlen |- *. lia.
Qed.

End Turns.

(** X11. The loop collects two pages a turn: on a chain of N pages, each
    carrying its [product_id], served without a failing fetch, it has left
    after [fuel] turns exactly when N <= 2 * [fuel], so the traversal takes
    (N+1)/2 turns, no fewer. *)
Theorem two_pages_a_turn {W : Type} (rt : runtime W) (w : W)
  (front : list product) (last : product) (fuel : nat) :
  Forall (fun p => truthy (next_product_token p) = true) front ->
  truthy (next_product_token last) = false ->
  identified (front ++ [last]) ->
  serves rt w None (front ++ [last]) ->
  (fst (fst (loop rt fuel (initial w))) <> None
   <-> (length (front ++ [last]) <= 2 * fuel)%nat).
Proof.
  intros Hfront Hlast Hids Hserves. split.
  - intros Hleft.
    destruct (Nat.le_gt_cases (length (front ++ [last])) (2 * fuel))
      as [H|H]; [exact H|].
    exfalso. apply Hleft.
    exact (loop_too_short rt fuel front last (initial w) Hfront Hids
             Hserves H).
  - intros Hlen.
    destruct (loop_chain rt fuel front last (initial w) Hfront Hlast Hids
                Hserves Hlen) as (s' & evs & Hloop & _).
    rewrite Hloop. discriminate.
Qed.

Lemma two_pages_a_turn_witness :
  fst (fst (loop three_page_server 1 (initial tt))) <> None
  <-> (length ([page 1 (Some "B"); page 2 (Some "C")] ++ [page 3 None])
       <= 2 * 1)%nat.
Proof.
  apply (two_pages_a_turn three_page_server tt
           [page 1 (Some "B"); page 2 (Some "C")] (page 3 None) 1).
  - repeat constructor.
  - reflexivity.
  - repeat constructor; discriminate.
  - repeat (eexists; eexists; split; [vm_compute; reflexivity|]). exact I.
Defined.

(** ** [analyze_products]: the counts add up *)

Lemma sum_counts_bump (m : gmap string nat) (c : string) :
  sum_counts (<[c := S (default 0%nat (m !! c))]> m) = S (sum_counts m).
Proof.
  unfold sum_counts. destruct (m !! c) as [n|] eqn:E; cbn [default].
  - rewrite <- (insert_delete_eq m).
    rewrite map_fold_insert_L;
      [|intros; lia|apply lookup_delete_eq].
    rewrite (map_fold_delete_L _ _ c n m);
      [unfold id; lia|intros; lia|exact E].
  - rewrite map_fold_insert_L; [cbv beta; lia|intros; lia|exact E].
Qed.

Lemma sum_counts_loop ar ps : forall t t',
  analyze_loop ar ps t = inl t' ->
  sum_counts (category_counts t')
  = (sum_counts (category_counts t) + length ps)%nat.
Proof.
  induction ps as [|p ps IH]; intros t t'; cbn [analyze_loop length].
  - intros H. injection H as <-. lia.
  - destruct (analyze_step ar t p) as [t1|e] eqn:E; [|discriminate].
    intros H. rewrite (IH _ _ H).
    destruct (analyze_step_inl ar _ _ _ E) as (-> & _).
    rewrite sum_counts_bump. lia.
Qed.

(** X12. The counts per category that [analyze_products] returns add up
    to the total number of products it returns, which is the length of the
    list: every product is counted in exactly one category.  The function
    returns whenever the pages carry their [product_id]. *)
Theorem counts_add_up (ar : arithmetic) (ps : list product) :
  (identified ps -> exists r, analyze_products ar ps = inl r)
  /\ (forall r, analyze_products ar ps = inl r ->
        sum_counts (counts_of r) = total_of r
        /\ total_of r = length ps).
Proof.
  split; [apply analyze_products_total|].
  intros r Hr. destruct (analyze_products_inl ar ps r Hr) as (t & Ht & ->).
  unfold counts_of, total_of. cbn [fst snd]. split; [|reflexivity].
  rewrite (sum_counts_loop ar ps _ _ Ht).
  cbn [initial_tally category_counts].
  unfold sum_counts. rewrite map_fold_empty. reflexivity.
Qed.

Lemma counts_add_up_witness :
  exists r,
    analyze_products exact_arithmetic three_pages = inl r
    /\ sum_counts (counts_of r) = total_of r
    /\ total_of r = 3%nat.
Proof.
  destruct (proj1 (counts_add_up exact_arithmetic three_pages)) as [r Hr].
  { repeat constructor; discriminate. }
  exists r. split; [exact Hr|].
  exact (proj2 (counts_add_up exact_arithmetic three_pages) r Hr).
Defined.

(** ** The traversal: the progress lines *)

Lemma added_lines_app evs evs' :
  added_lines (evs ++ evs') = added_lines evs ++ added_lines evs'.
Proof. unfold added_lines. apply flat_map_app. Qed.

Lemma numbered_app ps : forall start ps',
  numbered start (ps ++ ps')
  = numbered start ps ++ numbered (start + length ps) ps'.
Proof.
  induction ps as [|p ps IH]; intros start ps'.
  - cbn. rewrite Nat.add_0_r. reflexivity.
  - cbn [app numbered length]. rewrite IH, <- app_assoc.
    replace (S start + length ps)%nat with (start + S (length ps))%nat
      by lia.
    reflexivity.
Qed.

Section Progress.
Context {W : Type} (rt : runtime W).

Lemma fetch_no_lines tok w r w' evs :
  fetch_product rt tok w = (r, w', evs) -> added_lines evs = [].
Proof.
  intros H. pose proof (fetch_product_events rt tok w) as Hev.
  rewrite H in Hev. cbn in Hev. clear H.
  induction Hev as [|e evs He _ IH]; [reflexivity|].
  unfold added_lines in *. cbn [flat_map]. rewrite IH.
  destruct He as [->|[d ->]]; reflexivity.
Qed.

Lemma iteration_lines s :
  exists more,
    products (snd (fst (iteration rt s))) = products s ++ more
    /\ added_lines (snd (iteration rt s))
       = numbered (length (products s)) more.
Proof.
  unfold iteration, list_append.
  destruct (fetch_product rt (token s) (world s))
    as [[[p|e] w1] evs] eqn:Hf.
  - destruct (product_id p) as [idp|] eqn:Hidp.
    + destruct (truthy (next_product_token p)); cbn [negb].
      * cbn [as_completed world products token]. unfold list_append.
        destruct (fetch_product rt (next_product_token p) w1)
          as [[[q|e] w2] evs2] eqn:Hf2.
        -- destruct (product_id q) as [idq|] eqn:Hidq.
           ++ destruct (truthy (next_product_token q));
                cbn [negb drain as_completed fst snd products];
                (exists [p; q]; split; [rewrite <- app_assoc; reflexivity|]);
                rewrite !added_lines_app, (fetch_no_lines _ _ _ _ _ Hf),
                  (fetch_no_lines _ _ _ _ _ Hf2);
                cbn; rewrite Hidp, Hidq, !length_app; cbn;
                repeat f_equal; lia.
           ++ cbn [as_completed fst snd products].
              exists [p; q]. split; [rewrite <- app_assoc; reflexivity|].
              rewrite !added_lines_app, (fetch_no_lines _ _ _ _ _ Hf),
                (fetch_no_lines _ _ _ _ _ Hf2).
              cbn. rewrite Hidp, Hidq, !length_app. cbn.
              repeat f_equal; lia.
        -- cbn [fst snd products]. exists [p]. split; [reflexivity|].
           rewrite !added_lines_app, (fetch_no_lines _ _ _ _ _ Hf),
             (fetch_no_lines _ _ _ _ _ Hf2).
           cbn. rewrite Hidp, !length_app. cbn. repeat f_equal; lia.
      * cbn [fst snd products]. exists [p]. split; [reflexivity|].
        rewrite !added_lines_app, (fetch_no_lines _ _ _ _ _ Hf).
        cbn. rewrite Hidp, !length_app. cbn. repeat f_equal; lia.
    + cbn [fst snd products]. exists [p]. split; [reflexivity|].
      rewrite !added_lines_app, (fetch_no_lines _ _ _ _ _ Hf).
      cbn. rewrite Hidp. reflexivity.
  - cbn [fst snd products]. exists []. rewrite app_nil_r.
    split; [reflexivity|].
    rewrite !added_lines_app, (fetch_no_lines _ _ _ _ _ Hf). reflexivity.
Qed.

Lemma loop_lines fuel : forall s,
  exists more,
    products (snd (fst (loop rt fuel s))) = products s ++ more
    /\ added_lines (snd (loop rt fuel s))
       = numbered (length (products s)) more.
Proof.
  induction fuel as [|fuel IH]; intros s.
  - exists []. cbn. rewrite app_nil_r. split; reflexivity.
  - cbn [loop]. destruct (iteration_lines s) as (more & Hm & Hl).
    destruct (iteration rt s) as [[c s1] evs]. cbn [fst snd] in *.
    destruct c as [|b]; [|exists more; split; assumption].
    destruct (IH s1) as (more' & Hm' & Hl').
    destruct (loop rt fuel s1) as [[c' s'] evs']. cbn [after fst snd] in *.
    exists (more ++ more'). rewrite Hm', Hm, <- app_assoc.
    split; [reflexivity|].
    rewrite Hm, length_app in Hl'.
    rewrite added_lines_app, Hl, Hl', numbered_app. reflexivity.
Qed.

End Progress.

(** X13. The progress lines tell the truth: in every run, ended or not,
    the lines 'Added product ID ... - Total products: ...' are one per
    product of the list that carries its [product_id], in the order of the
    list, each carrying that identifier and the position of the product in
    the list as the total; a product without [product_id] has no line. *)
Theorem progress_lines {W : Type} (rt : runtime W) (fuel : nat) (w : W) :
  added_lines (snd (loop rt fuel (initial w)))
  = numbered 0 (products (snd (fst (loop rt fuel (initial w))))).
Proof.
  destruct (loop_lines rt fuel (initial w)) as (more & Hm & Hl).
  rewrite Hm, Hl. reflexivity.
Qed.
